(** * ts-events-delegator-poc: the delegate / delegator pools of [src/index.ts]

    A shallow embedding of the two pool classes, of the [Deferred] cell they
    share and of the microtask-deferred [emit] helper, followed by the
    properties of the correlation and lifecycle core.

    Modelling choices, all read off the source:
    - [uuid] is [string] (the source's [type uuid = string]); [uuidgen()]
      reads the next element of an entropy stream carried by the runtime.
    - [any] values are the small inductive [value]; a Promise returned by an
      asynchronous handler is the constructor [VPromise].
    - a [Promise] object is an address into the runtime's heap of promise
      cells, so the promise handed to the caller and the one kept in the pool
      are the same cell.
    - [emit(emitter, event, payload)] appends to the microtask queue; running
      a microtask is [emitter.emit], which calls the listeners in the order in
      which the module and the constructors registered them.
    - a JavaScript exception is the [Throw] completion; the state at the
      point of the throw is kept.
    - [Record<uuid, T>] objects are plain objects. The two function maps are
      read as the code reads them: an own property first, then the member of
      that name inherited from [Object.prototype], then [undefined]. The
      pending map and the waiter map are finite maps of their own
      properties: a hit on an inherited member there ends in the same
      TypeError as a miss, since no such member has a [resolve].
      [console.log] output is not part of the state. *)

From Stdlib Require Import ZArith String List.
From stdpp Require Import base gmap sets list strings pretty.
Import ListNotations.

Local Open Scope string_scope.
Local Open Scope list_scope.

(** ** Values, completions *)

Abbreviation uuid := string (only parsing).

(** [any]. Numbers are kept to the integers. [VPromise v] is a Promise that
    is still pending when it is handed over and later settles with [v].
    [VObject] is the empty object [{}] and [VBoxed v] the wrapper object of
    the primitive [v]; only the built-ins of [Object.prototype] make them. *)
#[warnings="-register-all"]
Inductive value : Type :=
| VUndefined
| VNumber (n : Z)
| VString (s : string)
| VArray (items : list value)
| VPromise (eventually : value)
| VBoolean (b : bool)
| VObject
| VBoxed (primitive : value).

(** The settled value behind a (possibly nested) pending computation. *)
Fixpoint settled (v : value) : value :=
  match v with
  | VPromise v' => settled v'
  | _ => v
  end.

Definition is_pending_computation (v : value) : bool :=
  match v with
  | VPromise _ => true
  | _ => false
  end.

Inductive exn : Type :=
| Error (message : string)
| TypeError.

Inductive Completion (A : Type) : Type :=
| Normal (a : A)
| Throw (e : exn).
Arguments Normal {A} a.
Arguments Throw {A} e.

(** A registered [Function], applied to an argument list. *)
Definition Function : Type := list value -> Completion value.

(** ** Event payloads *)

Module DelegateRequest.
Record t : Type := mk { id : uuid; rid : uuid; args : list value }.
End DelegateRequest.

Module DelegateReply.
Record t : Type := mk { rid : uuid; args : value }.
End DelegateReply.

Module RegisterRequest.
Record t : Type := mk { senderId : uuid; delegatorId : uuid }.
End RegisterRequest.

(** [type UnregisterRequest = RegisterRequest] *)
Module UnregisterRequest := RegisterRequest.

Module RegisterReply.
Record t : Type := mk { delegatorId : uuid }.
End RegisterReply.

(** An event name together with its payload. *)
Inductive Event : Type :=
| Ev_register (req : RegisterRequest.t)          (* 'register'    *)
| Ev_register_reply (reply : RegisterReply.t)    (* '@register'   *)
| Ev_delegate (req : DelegateRequest.t)          (* 'delegate'    *)
| Ev_delegate_reply (reply : DelegateReply.t)    (* '@delegate'   *)
| Ev_unregister (req : UnregisterRequest.t).     (* 'unregister'  *)

(** ** Runtime: uuid source, microtask queue, promise cells *)

(** The state of a promise cell. [Resolved v]: its resolve function has been
    called with [v] (fulfilled with [v], or following [v] when [v] is itself
    a Promise). [Rejected v]: its reject function has been called with [v]. *)
Inductive PromiseState : Type :=
| Pending
| Resolved (v : value)
| Rejected (v : value).

Abbreviation Promise := nat (only parsing).

Record Runtime : Type := mkRuntime {
  entropy : nat -> uuid;
  cursor : nat;
  microtasks : list Event;
  heap : list PromiseState
}.

Definition set_cursor (c : nat) (rt : Runtime) : Runtime :=
  mkRuntime (entropy rt) c (microtasks rt) (heap rt).
Definition set_microtasks (q : list Event) (rt : Runtime) : Runtime :=
  mkRuntime (entropy rt) (cursor rt) q (heap rt).
Definition set_heap (h : list PromiseState) (rt : Runtime) : Runtime :=
  mkRuntime (entropy rt) (cursor rt) (microtasks rt) h.

(** ** The method monad: [this], the runtime, and exceptions *)

Definition M (T A : Type) : Type := T -> Runtime -> Completion A * T * Runtime.

Definition ret {T A} (a : A) : M T A := fun this rt => (Normal a, this, rt).

Definition bind {T A B} (m : M T A) (k : A -> M T B) : M T B :=
  fun this rt =>
    match m this rt with
    | (Normal a, this', rt') => k a this' rt'
    | (Throw e, this', rt') => (Throw e, this', rt')
    end.

Definition throw {T A} (e : exn) : M T A := fun this rt => (Throw e, this, rt).

Definition get_this {T} : M T T := fun this rt => (Normal this, this, rt).

Definition modify_this {T} (f : T -> T) : M T unit :=
  fun this rt => (Normal tt, f this, rt).

Declare Scope method_scope.
Delimit Scope method_scope with method.
Notation "x <- m ;; k" := (bind m (fun x => k))
  (at level 100, m at next level, right associativity) : method_scope.
Notation "m ;; k" := (bind m (fun _ => k))
  (at level 100, right associativity) : method_scope.
Local Open Scope method_scope.

(** [uuidgen()] *)
Definition uuidgen {T} : M T uuid :=
  fun this rt => (Normal (entropy rt (cursor rt)), this, set_cursor (S (cursor rt)) rt).

(** [emit(emitter, event, payload)]: [queueMicrotask(() => emitter.emit(..))] *)
Definition emit {T} (event : Event) : M T unit :=
  fun this rt => (Normal tt, this, set_microtasks (microtasks rt ++ [event]) rt).

(** [fn.apply(null, args)] *)
Definition apply {T} (fn : Function) (args : list value) : M T value :=
  fun this rt => (fn args, this, rt).

(** [array.forEach(callback)] *)
Fixpoint forEach {T A} (l : list A) (callback : A -> M T unit) : M T unit :=
  match l with
  | [] => ret tt
  | x :: l' => callback x ;; forEach l' callback
  end.

(** ** Deferred *)

Module Deferred.
(** The [_resolve] and [_reject] fields are the resolving functions of
    [_promise]; the object is determined by its promise cell. *)
Record t : Type := mk { promise : Promise }.

(** What a resolving function does to its cell: only a pending promise
    changes state. *)
Definition settle (st : PromiseState) (p : Promise) (h : list PromiseState)
  : list PromiseState :=
  match h !! p with
  | Some Pending => <[p := st]> h
  | _ => h
  end.

(** [new Deferred<T>()] *)
Definition new {T} : M T t :=
  fun this rt =>
    (Normal (mk (length (heap rt))), this, set_heap (heap rt ++ [Pending]) rt).

Definition resolve {T} (d : t) (v : value) : M T unit :=
  fun this rt => (Normal tt, this, set_heap (settle (Resolved v) (promise d) (heap rt)) rt).

Definition reject {T} (d : t) (v : value) : M T unit :=
  fun this rt => (Normal tt, this, set_heap (settle (Rejected v) (promise d) (heap rt)) rt).
End Deferred.

(** ** DelegatePool *)

Module DelegatePool.
Record t : Type := mk {
  delegates : gset uuid;
  pool : gmap uuid Deferred.t
}.

Definition set_delegates (s : gset uuid) (this : t) : t := mk s (pool this).
Definition set_pool (p : gmap uuid Deferred.t) (this : t) : t := mk (delegates this) p.

(** [new DelegatePool()] *)
Definition new : t := mk ∅ ∅.

Definition delegate (id : uuid) (args : list value) : M t Promise :=
  this <- get_this ;;
  if decide (id ∈ delegates this) then
    rid <- uuidgen ;;
    d <- Deferred.new ;;
    modify_this (fun this => set_pool (<[rid := d]> (pool this)) this) ;;
    emit (Ev_delegate (DelegateRequest.mk id rid args)) ;;
    this <- get_this ;;
    match pool this !! rid with
    | Some d' => ret (Deferred.promise d')
    | None => throw TypeError
    end
  else
    throw (Error ("Unregistered delegate " +:+ id +:+ " was called")).

(** [create(id)]: the returned closure is [delegate id]. *)
Definition create (id : uuid) : M t (list value -> M t Promise) :=
  modify_this (fun this => set_delegates ({[id]} ∪ delegates this) this) ;;
  ret (fun args => delegate id args).

Definition handleDelegateReply (reply : DelegateReply.t) : M t unit :=
  this <- get_this ;;
  match pool this !! DelegateReply.rid reply with
  | Some d => Deferred.resolve d (DelegateReply.args reply)
  | None => throw TypeError
  end.

Definition handleUnregisterRequest (req : UnregisterRequest.t) : M t unit :=
  modify_this (fun this =>
    set_delegates (delegates this ∖ {[UnregisterRequest.delegatorId req]}) this).
End DelegatePool.

(** ** Plain objects whose key order is observed

    [DelegatorPool.pool] is enumerated with [Object.keys], so it is kept as
    an association list in insertion order (the order [Object.keys] gives
    for keys that are not array indices, which UUID texts never are). *)

Fixpoint own_get {A} (o : list (uuid * A)) (k : uuid) : option A :=
  match o with
  | [] => None
  | (k', a) :: o' => if String.eqb k' k then Some a else own_get o' k
  end.

(** [o[k] = a]: an existing key keeps its position, a new one goes last. *)
Fixpoint own_set {A} (o : list (uuid * A)) (k : uuid) (a : A) : list (uuid * A) :=
  match o with
  | [] => [(k, a)]
  | (k', a') :: o' =>
      if String.eqb k' k then (k', a) :: o' else (k', a') :: own_set o' k a
  end.

Definition Object_keys {A} (o : list (uuid * A)) : list uuid := map fst o.

(** ** What a plain object inherits

    The own property names of [Object.prototype]: a lookup [o[k]] on a plain
    object that has no own property [k] finds these. *)
Definition Object_prototype_names : list string :=
  ["constructor"; "__defineGetter__"; "__defineSetter__"; "hasOwnProperty";
   "__lookupGetter__"; "__lookupSetter__"; "isPrototypeOf"; "propertyIsEnumerable";
   "toString"; "valueOf"; "__proto__"; "toLocaleString"].

Definition is_Object (v : value) : bool :=
  match v with
  | VArray _ | VPromise _ | VObject | VBoxed _ => true
  | _ => false
  end.

(** [Object(v)] *)
Definition Object_call (v : value) : value :=
  match v with
  | VUndefined => VObject
  | VBoolean _ | VNumber _ | VString _ => VBoxed v
  | _ => v
  end.

(** [String(v)]; an integer prints in decimal, an array joins its elements
    with commas, [undefined] elements printing as nothing. *)
Fixpoint to_String (v : value) : string :=
  match v with
  | VUndefined => "undefined"
  | VNumber n => pretty n
  | VString s => s
  | VArray items =>
      (fix join (l : list value) : string :=
         match l with
         | [] => ""
         | x :: l' =>
             let element := match x with VUndefined => "" | _ => to_String x end in
             match l' with
             | [] => element
             | _ :: _ => element +:+ "," +:+ join l'
             end
         end) items
  | VPromise _ => "[object Promise]"
  | VBoolean b => if b then "true" else "false"
  | VObject => "[object Object]"
  | VBoxed v' => to_String v'
  end.

(** [o[name].apply(null, args)] for a name that the plain object [o] only
    inherits, as [index.ts] applies it. [toString] answers for [null],
    [constructor] is [Object], [isPrototypeOf] answers [false] for a
    primitive argument; the other members need an object for [this] and
    throw, and [__proto__] is not a function. *)
Definition Object_prototype_apply_null (name : string) : option Function :=
  if bool_decide (name ∈ Object_prototype_names) then
    Some (fun args =>
      if String.eqb name "toString" then Normal (VString "[object Null]")
      else if String.eqb name "constructor" then Normal (Object_call (hd VUndefined args))
      else if String.eqb name "isPrototypeOf" then
        if is_Object (hd VUndefined args) then Throw TypeError else Normal (VBoolean false)
      else Throw TypeError)
  else None.

(** [o[name].apply(args)] for a name that the plain object [o] only
    inherits, as the synchronous version applies it: the member is called
    on the array [args] with no argument. *)
Definition Object_prototype_apply_array (name : string) : option Function :=
  if bool_decide (name ∈ Object_prototype_names) then
    Some (fun args =>
      if String.eqb name "toString" then Normal (VString "[object Array]")
      else if String.eqb name "toLocaleString" then Normal (VString (to_String (VArray args)))
      else if String.eqb name "valueOf" then Normal (VArray args)
      else if String.eqb name "constructor" then Normal VObject
      else if String.eqb name "hasOwnProperty" || String.eqb name "isPrototypeOf"
              || String.eqb name "propertyIsEnumerable" then Normal (VBoolean false)
      else if String.eqb name "__lookupGetter__" || String.eqb name "__lookupSetter__"
      then Normal VUndefined
      else Throw TypeError)
  else None.

(** ** DelegatorPool *)

Module DelegatorPool.
Record t : Type := mk {
  id : uuid;
  pool : list (uuid * Function);
  uponRegister : gmap uuid Deferred.t
}.

Definition set_pool (p : list (uuid * Function)) (this : t) : t :=
  mk (id this) p (uponRegister this).
Definition set_uponRegister (u : gmap uuid Deferred.t) (this : t) : t :=
  mk (id this) (pool this) u.

(** [new DelegatorPool()]: the field initialiser [id = uuidgen()]. *)
Definition new (rt : Runtime) : t * Runtime :=
  (mk (entropy rt (cursor rt)) [] ∅, set_cursor (S (cursor rt)) rt).

Definition create (fn : Function) : M t (uuid * Function) :=
  id <- uuidgen ;;
  modify_this (fun this => set_pool (own_set (pool this) id fn) this) ;;
  ret (id, fn).

Definition register (delegatorId : uuid) : M t Promise :=
  deferred <- Deferred.new ;;
  modify_this (fun this =>
    set_uponRegister (<[delegatorId := deferred]> (uponRegister this)) this) ;;
  this <- get_this ;;
  emit (Ev_register (RegisterRequest.mk (id this) delegatorId)) ;;
  ret (Deferred.promise deferred).

Definition handleDelegateRequest (req : DelegateRequest.t) : M t unit :=
  this <- get_this ;;
  match own_get (pool this) (DelegateRequest.id req) with
  | Some delegate =>
      result <- apply delegate (DelegateRequest.args req) ;;
      emit (Ev_delegate_reply (DelegateReply.mk (DelegateRequest.rid req) result))
  | None =>
      match Object_prototype_apply_null (DelegateRequest.id req) with
      | Some inherited =>
          result <- apply inherited (DelegateRequest.args req) ;;
          emit (Ev_delegate_reply (DelegateReply.mk (DelegateRequest.rid req) result))
      | None => throw TypeError
      end
  end.

Definition handleRegisterReply (req : RegisterReply.t) : M t unit :=
  this <- get_this ;;
  match uponRegister this !! RegisterReply.delegatorId req with
  | Some d => Deferred.resolve d VUndefined
  | None => throw TypeError
  end.

Definition dispose : M t unit :=
  this <- get_this ;;
  forEach (Object_keys (pool this)) (fun delegatorId =>
    this <- get_this ;;
    emit (Ev_unregister (UnregisterRequest.mk (id this) delegatorId))).
End DelegatorPool.

(** ** The process: one pool of each kind on the module's emitter *)

Record World : Type := mkWorld {
  runtime : Runtime;
  delegates : DelegatePool.t;
  delegators : DelegatorPool.t
}.

(** A method call on [delegates] / on [delegators]. *)
Definition on_delegates {A} (m : M DelegatePool.t A) (w : World) : Completion A * World :=
  let '(c, this, rt) := m (delegates w) (runtime w) in
  (c, mkWorld rt this (delegators w)).

Definition on_delegators {A} (m : M DelegatorPool.t A) (w : World) : Completion A * World :=
  let '(c, this, rt) := m (delegators w) (runtime w) in
  (c, mkWorld rt (delegates w) this).

(** The 'register' listener installed by [main]: it creates the delegate and
    acknowledges. Its [setInterval] is a timer; the calls it makes are
    [delegate] calls like any other. *)
Definition main_on_register (req : RegisterRequest.t) : M DelegatePool.t unit :=
  tx <- DelegatePool.create (RegisterRequest.delegatorId req) ;;
  emit (Ev_register_reply (RegisterReply.mk (RegisterRequest.delegatorId req))).

(** [debug]: a [console.log] of the event; the console is not part of the
    state. *)
Definition debug {T} (message : string) (anything : Event) : M T unit := ret tt.

(** [emitter.emit(event, payload)]: the listeners of that event, in
    registration order. The module registers a [debug] listener for each
    event before any pool is constructed. *)
Definition emitter_emit (e : Event) (w : World) : Completion unit * World :=
  match e with
  | Ev_register req =>
      on_delegates (debug "register |" e ;; main_on_register req) w
  | Ev_register_reply reply =>
      on_delegators (debug "@register |" e ;; DelegatorPool.handleRegisterReply reply) w
  | Ev_delegate req =>
      on_delegators (debug "delegate |" e ;; DelegatorPool.handleDelegateRequest req) w
  | Ev_delegate_reply reply =>
      on_delegates (debug "@delegate |" e ;; DelegatePool.handleDelegateReply reply) w
  | Ev_unregister req =>
      on_delegates (debug "unregister |" e ;; DelegatePool.handleUnregisterRequest req) w
  end.

(** [main]'s two constructor calls, from a runtime with nothing queued. *)
Definition boot (src : nat -> uuid) : World :=
  let rt := mkRuntime src 0 [] [] in
  let '(rx, rt') := DelegatorPool.new rt in
  mkWorld rt' DelegatePool.new rx.

(** The state of the process: running, or stopped by an exception that no
    one caught inside a microtask. *)
Inductive Process : Type :=
| Running (w : World)
| Crashed (e : exn) (w : World).

Definition dequeue (w : World) : option (Event * World) :=
  match microtasks (runtime w) with
  | [] => None
  | e :: q => Some (e, mkWorld (set_microtasks q (runtime w)) (delegates w) (delegators w))
  end.

(** Run the oldest microtask. *)
Definition run_microtask (w : World) : Process :=
  match dequeue w with
  | None => Running w
  | Some (e, w') =>
      match emitter_emit e w' with
      | (Normal _, w'') => Running w''
      | (Throw err, w'') => Crashed err w''
      end
  end.

Fixpoint run_microtasks (n : nat) (w : World) : Process :=
  match n with
  | O => Running w
  | S n' =>
      match run_microtask w with
      | Running w' => run_microtasks n' w'
      | Crashed err w' => Crashed err w'
      end
  end.

(** ** The earlier, synchronous pools ([src/unnamed/part_000])

    The first version of the two classes: no callable-target set, no
    registration, and [emitter.emit] is called directly, so the listeners of
    an event run inside the call that emits it. The module constructs one
    pool of each kind; 'delegate' has the one listener [delegators.handle],
    'ack' the one listener [delegates.ack]. *)

Module SyncVariant.

Module Delegator.
(** [interface Delegator { id; apply }] *)
Record t : Type := mk { id : uuid; apply : Function }.
End Delegator.

Module DelegatePool.
Record t : Type := mk { pool : gmap uuid Deferred.t }.
End DelegatePool.

Module DelegatorPool.
Record t : Type := mk { pool : gmap uuid Delegator.t }.
End DelegatorPool.

(** The two module-level instances. *)
Record Pools : Type := mkPools {
  delegates : DelegatePool.t;
  delegators : DelegatorPool.t
}.

(** [DelegatePool.ack]; its [console.log] only prints. *)
Definition ack (reply : DelegateReply.t) : M Pools unit :=
  this <- get_this ;;
  match DelegatePool.pool (delegates this) !! DelegateReply.rid reply with
  | Some d => Deferred.resolve d (DelegateReply.args reply)
  | None => throw TypeError
  end.

(** [emitter.emit('ack', reply)] *)
Definition emitter_emit_ack (reply : DelegateReply.t) : M Pools unit := ack reply.

(** [DelegatorPool.handle]; [delegate.apply(req.args)] calls the stored
    function on the argument array. *)
Definition handle (req : DelegateRequest.t) : M Pools unit :=
  this <- get_this ;;
  match DelegatorPool.pool (delegators this) !! DelegateRequest.id req with
  | Some delegate =>
      result <- apply (Delegator.apply delegate) (DelegateRequest.args req) ;;
      emitter_emit_ack (DelegateReply.mk (DelegateRequest.rid req) result)
  | None =>
      match Object_prototype_apply_array (DelegateRequest.id req) with
      | Some inherited =>
          result <- apply inherited (DelegateRequest.args req) ;;
          emitter_emit_ack (DelegateReply.mk (DelegateRequest.rid req) result)
      | None => throw TypeError
      end
  end.

(** [emitter.emit('delegate', req)] *)
Definition emitter_emit_delegate (req : DelegateRequest.t) : M Pools unit := handle req.

(** [DelegatePool.delegate] *)
Definition delegate (id : uuid) (args : list value) : M Pools Promise :=
  rid <- uuidgen ;;
  d <- Deferred.new ;;
  modify_this (fun this =>
    mkPools (DelegatePool.mk (<[rid := d]> (DelegatePool.pool (delegates this))))
            (delegators this)) ;;
  emitter_emit_delegate (DelegateRequest.mk id rid args) ;;
  this <- get_this ;;
  match DelegatePool.pool (delegates this) !! rid with
  | Some d' => ret (Deferred.promise d')
  | None => throw TypeError
  end.

(** [DelegatePool.create]: the object [{ id, apply }] whose [apply] is the
    closure over [delegate]. *)
Definition DelegatePool_create (id : uuid) : M Pools (uuid * (list value -> M Pools Promise)) :=
  ret (id, fun args => delegate id args).

(** [DelegatorPool.create] *)
Definition DelegatorPool_create (fn : Function) : M Pools Delegator.t :=
  id <- uuidgen ;;
  modify_this (fun this =>
    mkPools (delegates this)
            (DelegatorPool.mk (<[id := Delegator.mk id fn]> (DelegatorPool.pool (delegators this))))) ;;
  ret (Delegator.mk id fn).

End SyncVariant.

(** ** Scenarios *)

(** Several calls through the same proxy, issued back to back in one turn:
    all of them are outstanding before any microtask runs. *)
Fixpoint concurrent_calls (id : uuid) (argss : list (list value))
  : M DelegatePool.t (list Promise) :=
  match argss with
  | [] => ret []
  | args :: rest =>
      p <- DelegatePool.delegate id args ;;
      ps <- concurrent_calls id rest ;;
      ret (p :: ps)
  end.

(** The bus hands over the queued events in another order. *)
Definition reordered (q : list Event) (w : World) : World :=
  mkWorld (set_microtasks q (runtime w)) (delegates w) (delegators w).

(** What user code and the event loop can do to the process. *)
Inductive Action : Type :=
| Call (id : uuid) (args : list value)        (* a proxy call: delegates.delegate *)
| CreateDelegate (id : uuid)                  (* delegates.create *)
| CreateDelegator (fn : Function)             (* delegators.create *)
| Register (delegatorId : uuid)               (* delegators.register *)
| Dispose                                     (* delegators.dispose *)
| Tick.                                       (* the next microtask *)

(** The process after an action. An exception thrown to user code leaves
    the process running in the state reached at the throw. *)
Definition perform (a : Action) (w : World) : Process :=
  match a with
  | Call id args => Running (snd (on_delegates (DelegatePool.delegate id args) w))
  | CreateDelegate id => Running (snd (on_delegates (DelegatePool.create id) w))
  | CreateDelegator fn => Running (snd (on_delegators (DelegatorPool.create fn) w))
  | Register delegatorId => Running (snd (on_delegators (DelegatorPool.register delegatorId) w))
  | Dispose => Running (snd (on_delegators DelegatorPool.dispose w))
  | Tick => run_microtask w
  end.

Inductive reachable : World -> Prop :=
| reachable_boot (src : nat -> uuid) : reachable (boot src)
| reachable_perform (a : Action) (w w' : World) :
    reachable w -> perform a w = Running w' -> reachable w'.

(** The reply identifier an event on the call path carries. *)
Definition reply_id (e : Event) : option uuid :=
  match e with
  | Ev_delegate req => Some (DelegateRequest.rid req)
  | Ev_delegate_reply reply => Some (DelegateReply.rid reply)
  | _ => None
  end.

(** Every queued event on the call path names a reply identifier that the
    pending map knows. *)
Definition replies_expected (w : World) : Prop :=
  forall (e : Event) (rid : uuid),
    e ∈ microtasks (runtime w) -> reply_id e = Some rid ->
    is_Some (DelegatePool.pool (delegates w) !! rid).


(** A run of actions, stopping at the first uncaught exception. *)
Fixpoint run_actions (actions : list Action) (w : World) : Process :=
  match actions with
  | [] => Running w
  | a :: actions' =>
      match perform a w with
      | Running w' => run_actions actions' w'
      | Crashed e w' => Crashed e w'
      end
  end.

Definition state_of (p : Process) : World :=
  match p with
  | Running w => w
  | Crashed _ w => w
  end.

(** The notices [dispose] queues: one per key, in key order. *)
Definition unregister_notices (this : DelegatorPool.t) : list Event :=
  map (fun delegatorId =>
         Ev_unregister (UnregisterRequest.mk (DelegatorPool.id this) delegatorId))
      (Object_keys (DelegatorPool.pool this)).

(** Concrete data for the examples. *)
Definition sample_uuids (n : nat) : uuid :=
  match n with
  | 0 => "3d0ca315-aff9-4fc2-be61-3b76b9a2d798"
  | 1 => "9b5e0c6a-21f4-4d8e-8a37-c04e5f1d2a66"
  | 2 => "e1a7f3d2-58b0-4c19-9f6e-7a2b40c8d513"
  | 3 => "57c4be90-06ad-4e7b-b1d8-0f93a6e2c4b7"
  | _ => "ffffffff-ffff-4fff-bfff-ffffffffffff"
  end.

Definition idle (cursor : nat) : Runtime := mkRuntime sample_uuids cursor [] [].

(** [main]'s first handler, [(x: number) => 42 + x]; only its value on a
    number is used. *)
Definition add42 : Function := fun args =>
  match args with
  | VNumber x :: _ => Normal (VNumber (42 + x))
  | _ => Normal VUndefined
  end.

(** [main]'s second handler, [() => 100]. *)
Definition always100 : Function := fun _ => Normal (VNumber 100).

(** An asynchronous handler: [async () => 42]. *)
Definition later42 : Function := fun _ => Normal (VPromise (VNumber 42)).

(** A pool with one outstanding call: its Deferred is cell 0. *)
Definition one_pending : DelegatePool.t :=
  DelegatePool.mk {[sample_uuids 0]} {[sample_uuids 1 := Deferred.mk 0]}.

Definition one_cell : Runtime := mkRuntime sample_uuids 2 [] [Pending].

(** A registry holding [main]'s first handler, nothing announced. *)
Definition one_function : DelegatorPool.t :=
  DelegatorPool.mk (sample_uuids 0) [(sample_uuids 1, add42)] ∅.

(** A registry holding an asynchronous handler. *)
Definition one_async_function : DelegatorPool.t :=
  DelegatorPool.mk (sample_uuids 0) [(sample_uuids 1, later42)] ∅.

(** A registry waiting for the acknowledgment of one registration. *)
Definition one_waiter : DelegatorPool.t :=
  DelegatorPool.mk (sample_uuids 0) [(sample_uuids 1, add42)]
    {[sample_uuids 1 := Deferred.mk 0]}.

(** The caller was told an identifier is callable, the registry holds no
    function under it, and one call has been issued. *)
Definition call_without_function : World :=
  snd (on_delegates (DelegatePool.delegate (sample_uuids 3) [VNumber 21])
         (snd (on_delegates (DelegatePool.create (sample_uuids 3)) (boot sample_uuids)))).

(** [main]'s first handler is registered and known to the caller. *)
Definition wired : World :=
  state_of (run_actions [CreateDelegator add42; CreateDelegate (sample_uuids 1)]
              (boot sample_uuids)).

(** One call has been issued and answered; the reply is on the queue. *)
Definition reply_in_flight : World :=
  state_of (run_actions [Call (sample_uuids 1) [VNumber 0]; Tick] wired).

(** The reply of [reply_in_flight] has been delivered: cell 0 is resolved. *)
Definition answered : World := state_of (perform Tick reply_in_flight).

(** A handler that throws. *)
Definition failing : Function := fun _ => Throw (Error "handler failed").

(** A request for a failing handler is first on the queue; the caller's
    promise is cell 0. *)
Definition failing_call_in_flight : World :=
  mkWorld
    (mkRuntime sample_uuids 3
       [Ev_delegate (DelegateRequest.mk (sample_uuids 1) (sample_uuids 2) [VNumber 1])]
       [Pending])
    (DelegatePool.mk {[sample_uuids 1]} {[sample_uuids 2 := Deferred.mk 0]})
    (DelegatorPool.mk (sample_uuids 0) [(sample_uuids 1, failing)] ∅).

(** The synchronous pools with one delegator. *)
Definition sync_one_delegator : SyncVariant.Pools :=
  SyncVariant.mkPools (SyncVariant.DelegatePool.mk ∅)
    (SyncVariant.DelegatorPool.mk
       {[sample_uuids 0 := SyncVariant.Delegator.mk (sample_uuids 0) always100]}).

Definition sync_failing_delegator : SyncVariant.Pools :=
  SyncVariant.mkPools (SyncVariant.DelegatePool.mk ∅)
    (SyncVariant.DelegatorPool.mk
       {[sample_uuids 0 := SyncVariant.Delegator.mk (sample_uuids 0) failing]}).

(** * Properties *)

Ltac unfold_method :=
  unfold DelegatePool.delegate, DelegatePool.create, DelegatePool.handleDelegateReply,
    DelegatePool.handleUnregisterRequest, DelegatorPool.create, DelegatorPool.register,
    DelegatorPool.handleDelegateRequest, DelegatorPool.handleRegisterReply,
    main_on_register,
    debug, bind, ret, throw, get_this, modify_this, uuidgen, emit, apply,
    Deferred.new, Deferred.resolve, Deferred.reject in *.

(** ** The model on [main]'s scenario *)

(** Two handlers are created, the first is announced; the 'register'
    listener makes it callable and acknowledges; the waiter (cell 0) is
    resolved. A call with [1] is then answered with [43] (cell 1). *)
Example handshake_then_call :
  match
    run_actions
      [CreateDelegator add42; CreateDelegator always100; Register (sample_uuids 1);
       Tick; Tick; Call (sample_uuids 1) [VNumber 1]; Tick; Tick]
      (boot sample_uuids)
  with
  | Running w =>
      heap (runtime w) = [Resolved VUndefined; Resolved (VNumber 43)]
      /\ microtasks (runtime w) = []
      /\ DelegatePool.pool (delegates w) !! sample_uuids 3 = Some (Deferred.mk 1)
  | Crashed _ _ => False
  end.
Proof. vm_compute. split; [reflexivity |]. split; reflexivity. Qed.

(** After [dispose] and the delivery of its notices the proxy call throws. *)
Example call_after_dispose :
  match
    run_actions
      [CreateDelegator add42; Register (sample_uuids 1); Tick; Tick; Dispose; Tick]
      (boot sample_uuids)
  with
  | Running w =>
      fst (on_delegates (DelegatePool.delegate (sample_uuids 1) [VNumber 1]) w)
      = Throw (Error "Unregistered delegate 9b5e0c6a-21f4-4d8e-8a37-c04e5f1d2a66 was called")
  | Crashed _ _ => False
  end.
Proof. vm_compute. reflexivity. Qed.

(** ** The caller side: [DelegatePool] *)

Lemma delegate_not_callable (id : uuid) (args : list value)
    (this : DelegatePool.t) (rt : Runtime) :
  id ∉ DelegatePool.delegates this ->
  DelegatePool.delegate id args this rt
  = (Throw (Error ("Unregistered delegate " +:+ id +:+ " was called")), this, rt).
Proof.
  intros Hnot. unfold_method.
  destruct (decide (id ∈ DelegatePool.delegates this)) as [Hin | _]; [contradiction | reflexivity].
Qed.

(** C2. A call against an identifier that is not in [delegates] throws the
    "Unregistered delegate" error at once, and nothing else happens: the pool
    object and the whole runtime (uuid cursor, microtask queue, promise
    cells) are returned as they were, so no reply identifier was drawn, no
    Deferred was stored and no 'delegate' event was queued. *)
Theorem delegate_unregistered_throws (id : uuid) (args : list value)
    (this : DelegatePool.t) (rt : Runtime) :
  id ∉ DelegatePool.delegates this ->
  DelegatePool.delegate id args this rt
  = (Throw (Error ("Unregistered delegate " +:+ id +:+ " was called")), this, rt).
Proof.
  intros Hnot. unfold DelegatePool.delegate. unfold bind at 1, get_this at 1.
  destruct (decide (id ∈ DelegatePool.delegates this)) as [Hin | _].
  - contradiction.
  - reflexivity.
Qed.

Lemma delegate_unregistered_throws_witness :
  DelegatePool.delegate (sample_uuids 1) [VNumber 21] DelegatePool.new (idle 0)
  = (Throw (Error "Unregistered delegate 9b5e0c6a-21f4-4d8e-8a37-c04e5f1d2a66 was called"),
     DelegatePool.new, idle 0).
Proof.
  apply (delegate_unregistered_throws (sample_uuids 1) [VNumber 21] DelegatePool.new (idle 0)).
  vm_compute. discriminate.
Defined.

(** C8. [handleUnregisterRequest] returns normally and removes exactly the
    noticed identifier from [delegates]. The pending map is the same map, and
    the runtime is untouched: every promise cell, pending ones included, is
    in the state it was in, and nothing is queued. Membership of every other
    identifier is unchanged, and from then on a call against the noticed
    identifier throws the unregistered-delegate error. *)
Theorem handleUnregisterRequest_frame (req : UnregisterRequest.t)
    (this : DelegatePool.t) (rt : Runtime) :
  exists this',
    DelegatePool.handleUnregisterRequest req this rt = (Normal tt, this', rt)
    /\ DelegatePool.delegates this'
       = DelegatePool.delegates this ∖ {[UnregisterRequest.delegatorId req]}
    /\ DelegatePool.pool this' = DelegatePool.pool this
    /\ (forall other : uuid, other <> UnregisterRequest.delegatorId req ->
          (other ∈ DelegatePool.delegates this' <-> other ∈ DelegatePool.delegates this))
    /\ (forall (args : list value) (rt' : Runtime),
          DelegatePool.delegate (UnregisterRequest.delegatorId req) args this' rt'
          = (Throw (Error ("Unregistered delegate "
                           +:+ UnregisterRequest.delegatorId req +:+ " was called")),
             this', rt')).
Proof.
  eexists. split; [reflexivity |]. simpl.
  split; [reflexivity |]. split; [reflexivity |]. split.
  - intros other Hne. rewrite elem_of_difference, elem_of_singleton. tauto.
  - intros args rt'. apply delegate_not_callable. simpl.
    rewrite elem_of_difference, elem_of_singleton. tauto.
Qed.

Lemma handleUnregisterRequest_frame_witness :
  exists this' : DelegatePool.t,
    DelegatePool.handleUnregisterRequest
      (UnregisterRequest.mk (sample_uuids 3) (sample_uuids 0)) one_pending one_cell
    = (Normal tt, this', one_cell)
    /\ DelegatePool.pool this' = DelegatePool.pool one_pending
    /\ DelegatePool.delegate (sample_uuids 0) [VNumber 1] this' one_cell
       = (Throw (Error "Unregistered delegate 3d0ca315-aff9-4fc2-be61-3b76b9a2d798 was called"),
          this', one_cell).
Proof.
  destruct (handleUnregisterRequest_frame
              (UnregisterRequest.mk (sample_uuids 3) (sample_uuids 0)) one_pending one_cell)
    as (this' & Hrun & _ & Hpool & _ & Hcall).
  exists this'. split; [exact Hrun |]. split; [exact Hpool |].
  exact (Hcall [VNumber 1] one_cell).
Defined.

(** What [handleDelegateReply] does, by cases on the lookup. *)
Lemma handleDelegateReply_found (reply : DelegateReply.t) (d : Deferred.t)
    (this : DelegatePool.t) (rt : Runtime) :
  DelegatePool.pool this !! DelegateReply.rid reply = Some d ->
  DelegatePool.handleDelegateReply reply this rt
  = (Normal tt, this,
     set_heap (Deferred.settle (Resolved (DelegateReply.args reply))
                 (Deferred.promise d) (heap rt)) rt).
Proof. intros Hd. unfold_method. rewrite Hd. reflexivity. Qed.

Lemma handleDelegateReply_missing (reply : DelegateReply.t)
    (this : DelegatePool.t) (rt : Runtime) :
  DelegatePool.pool this !! DelegateReply.rid reply = None ->
  DelegatePool.handleDelegateReply reply this rt = (Throw TypeError, this, rt).
Proof. intros Hd. unfold_method. rewrite Hd. reflexivity. Qed.

Lemma settle_pending (st : PromiseState) (p : Promise) (h : list PromiseState) :
  h !! p = Some Pending -> Deferred.settle st p h = <[p := st]> h.
Proof. intros Hp. unfold Deferred.settle. rewrite Hp. reflexivity. Qed.

Lemma settle_settled (st st' : PromiseState) (p : Promise) (h : list PromiseState) :
  h !! p = Some st' -> st' <> Pending -> Deferred.settle st p h = h.
Proof.
  intros Hp Hne. unfold Deferred.settle. rewrite Hp.
  destruct st'; [contradiction | reflexivity | reflexivity].
Qed.

Lemma settle_length (st : PromiseState) (p : Promise) (h : list PromiseState) :
  length (Deferred.settle st p h) = length h.
Proof.
  unfold Deferred.settle. destruct (h !! p) as [[ | | ] | ]; try reflexivity.
  apply length_insert.
Qed.

Lemma settle_other (st : PromiseState) (p q : Promise) (h : list PromiseState) :
  p <> q -> Deferred.settle st p h !! q = h !! q.
Proof.
  intros Hne. unfold Deferred.settle. destruct (h !! p) as [[ | | ] | ]; try reflexivity.
  apply list_lookup_insert_ne. exact Hne.
Qed.

(** C4, as stated, fails: a reply whose [rid] has no entry in the pending
    map makes [handleDelegateReply] throw. *)
Lemma stale_reply_raises :
  let reply := DelegateReply.mk (sample_uuids 2) (VNumber 42) in
  DelegatePool.pool DelegatePool.new !! DelegateReply.rid reply = None
  /\ DelegatePool.handleDelegateReply reply DelegatePool.new (idle 0)
     = (Throw TypeError, DelegatePool.new, idle 0).
Proof. split; reflexivity. Qed.

(** C4, amended. For a reply whose [rid] has no entry in the pending map,
    [handleDelegateReply] throws a TypeError (the lookup is not guarded) and
    changes nothing: the pending map, the callable-target set and the
    runtime are exactly as before. *)
Theorem stale_reply_throws_without_mutation (reply : DelegateReply.t)
    (this : DelegatePool.t) (rt : Runtime) :
  DelegatePool.pool this !! DelegateReply.rid reply = None ->
  DelegatePool.handleDelegateReply reply this rt = (Throw TypeError, this, rt).
Proof.
  intros Hstale. unfold DelegatePool.handleDelegateReply, bind, get_this.
  rewrite Hstale. reflexivity.
Qed.

Lemma stale_reply_throws_without_mutation_witness :
  DelegatePool.handleDelegateReply (DelegateReply.mk (sample_uuids 2) (VNumber 42))
    DelegatePool.new (idle 0)
  = (Throw TypeError, DelegatePool.new, idle 0).
Proof.
  apply (stale_reply_throws_without_mutation
           (DelegateReply.mk (sample_uuids 2) (VNumber 42)) DelegatePool.new (idle 0)).
  reflexivity.
Defined.

(** C5, as stated, fails: after a matching reply has been handled the
    pending map still holds the entry. *)
Lemma answered_call_stays_in_pool :
  let reply := DelegateReply.mk (sample_uuids 1) (VArray [VNumber 42]) in
  DelegatePool.pool one_pending !! DelegateReply.rid reply = Some (Deferred.mk 0)
  /\ exists (this' : DelegatePool.t) (rt' : Runtime),
       DelegatePool.handleDelegateReply reply one_pending one_cell = (Normal tt, this', rt')
       /\ DelegatePool.pool this' !! DelegateReply.rid reply <> None.
Proof.
  split; [reflexivity |]. eexists. eexists. split; [reflexivity |]. discriminate.
Qed.

(** C5, amended. For a reply whose [rid] has an entry in the pending map
    with a pending promise, [handleDelegateReply] returns normally, resolves
    that promise with the reply's [args] and touches no other promise cell,
    nothing on the queue and nothing in the pool object: the pending map is
    unchanged, so the entry for that [rid] is still there. *)
Theorem matched_reply_resolves_and_keeps_entry (reply : DelegateReply.t) (d : Deferred.t)
    (this : DelegatePool.t) (rt : Runtime) :
  DelegatePool.pool this !! DelegateReply.rid reply = Some d ->
  heap rt !! Deferred.promise d = Some Pending ->
  exists rt' : Runtime,
    DelegatePool.handleDelegateReply reply this rt = (Normal tt, this, rt')
    /\ heap rt' !! Deferred.promise d = Some (Resolved (DelegateReply.args reply))
    /\ (forall q : Promise, q <> Deferred.promise d -> heap rt' !! q = heap rt !! q)
    /\ microtasks rt' = microtasks rt
    /\ cursor rt' = cursor rt
    /\ DelegatePool.pool this !! DelegateReply.rid reply = Some d.
Proof.
  intros Hd Hp. eexists. split; [apply handleDelegateReply_found; exact Hd |]. simpl.
  rewrite (settle_pending _ _ _ Hp).
  split.
  - apply list_lookup_insert_eq. apply lookup_lt_Some in Hp. exact Hp.
  - split; [| auto]. intros q Hq. apply list_lookup_insert_ne. congruence.
Qed.

Lemma matched_reply_resolves_and_keeps_entry_witness :
  exists rt' : Runtime,
    DelegatePool.handleDelegateReply
      (DelegateReply.mk (sample_uuids 1) (VArray [VNumber 42])) one_pending one_cell
    = (Normal tt, one_pending, rt')
    /\ heap rt' !! 0 = Some (Resolved (VArray [VNumber 42]))
    /\ (forall q : Promise, q <> 0 -> heap rt' !! q = heap one_cell !! q)
    /\ microtasks rt' = microtasks one_cell
    /\ cursor rt' = cursor one_cell
    /\ DelegatePool.pool one_pending !! sample_uuids 1 = Some (Deferred.mk 0).
Proof.
  apply (matched_reply_resolves_and_keeps_entry
           (DelegateReply.mk (sample_uuids 1) (VArray [VNumber 42])) (Deferred.mk 0)
           one_pending one_cell).
  - reflexivity.
  - reflexivity.
Defined.

(** A reply for a call that is already settled (a duplicate) finds its entry
    and changes nothing. *)
Lemma duplicate_reply_is_noop (reply : DelegateReply.t) (d : Deferred.t)
    (st : PromiseState) (this : DelegatePool.t) (rt : Runtime) :
  DelegatePool.pool this !! DelegateReply.rid reply = Some d ->
  heap rt !! Deferred.promise d = Some st -> st <> Pending ->
  DelegatePool.handleDelegateReply reply this rt = (Normal tt, this, rt).
Proof.
  intros Hd Hp Hst. rewrite (handleDelegateReply_found _ _ _ _ Hd).
  rewrite (settle_settled _ _ _ _ Hp Hst). destruct rt; reflexivity.
Qed.

(** ** The callee side: [DelegatorPool] *)

Lemma handleDelegateRequest_registered (req : DelegateRequest.t) (fn : Function)
    (result : value) (this : DelegatorPool.t) (rt : Runtime) :
  own_get (DelegatorPool.pool this) (DelegateRequest.id req) = Some fn ->
  fn (DelegateRequest.args req) = Normal result ->
  DelegatorPool.handleDelegateRequest req this rt
  = (Normal tt, this,
     set_microtasks
       (microtasks rt ++ [Ev_delegate_reply (DelegateReply.mk (DelegateRequest.rid req) result)])
       rt).
Proof. intros Hfn Hres. unfold_method. rewrite Hfn, Hres. reflexivity. Qed.

Lemma not_inherited_null (name : string) :
  name ∉ Object_prototype_names -> Object_prototype_apply_null name = None.
Proof.
  intros Hname. unfold Object_prototype_apply_null.
  rewrite bool_decide_eq_false_2 by exact Hname. reflexivity.
Qed.

Lemma handleDelegateRequest_missing (req : DelegateRequest.t)
    (this : DelegatorPool.t) (rt : Runtime) :
  own_get (DelegatorPool.pool this) (DelegateRequest.id req) = None ->
  DelegateRequest.id req ∉ Object_prototype_names ->
  DelegatorPool.handleDelegateRequest req this rt = (Throw TypeError, this, rt).
Proof.
  intros Hfn Hname. unfold_method. rewrite Hfn, (not_inherited_null _ Hname). reflexivity.
Qed.

(** A name the function map only inherits: the inherited member is applied
    like a stored function. *)
Lemma handleDelegateRequest_inherited (req : DelegateRequest.t) (inherited : Function)
    (this : DelegatorPool.t) (rt : Runtime) :
  own_get (DelegatorPool.pool this) (DelegateRequest.id req) = None ->
  Object_prototype_apply_null (DelegateRequest.id req) = Some inherited ->
  DelegatorPool.handleDelegateRequest req this rt
  = match inherited (DelegateRequest.args req) with
    | Normal result =>
        (Normal tt, this,
         set_microtasks
           (microtasks rt
            ++ [Ev_delegate_reply (DelegateReply.mk (DelegateRequest.rid req) result)]) rt)
    | Throw e => (Throw e, this, rt)
    end.
Proof.
  intros Hfn Hin. unfold_method. rewrite Hfn, Hin.
  destruct (inherited (DelegateRequest.args req)); reflexivity.
Qed.

(** Whatever the lookup finds, the listener either throws and changes
    nothing, or queues one reply under the request's [rid] and changes
    nothing else. *)
Lemma handleDelegateRequest_cases (req : DelegateRequest.t)
    (this : DelegatorPool.t) (rt : Runtime) :
  (exists e : exn, DelegatorPool.handleDelegateRequest req this rt = (Throw e, this, rt))
  \/ (exists result : value,
        DelegatorPool.handleDelegateRequest req this rt
        = (Normal tt, this,
           set_microtasks
             (microtasks rt
              ++ [Ev_delegate_reply (DelegateReply.mk (DelegateRequest.rid req) result)]) rt)).
Proof.
  unfold_method.
  destruct (own_get (DelegatorPool.pool this) (DelegateRequest.id req)) as [fn |].
  - destruct (fn (DelegateRequest.args req)) as [result | e]; eauto.
  - destruct (Object_prototype_apply_null (DelegateRequest.id req)) as [inherited |]; [| eauto].
    destruct (inherited (DelegateRequest.args req)) as [result | e]; eauto.
Qed.

(** A handler that throws: the exception leaves the listener and no reply is
    queued. *)
Lemma handleDelegateRequest_handler_throws (req : DelegateRequest.t) (fn : Function)
    (e : exn) (this : DelegatorPool.t) (rt : Runtime) :
  own_get (DelegatorPool.pool this) (DelegateRequest.id req) = Some fn ->
  fn (DelegateRequest.args req) = Throw e ->
  DelegatorPool.handleDelegateRequest req this rt = (Throw e, this, rt).
Proof. intros Hfn Hres. unfold_method. rewrite Hfn, Hres. reflexivity. Qed.

Lemma debug_then {T A} (message : string) (e : Event) (m : M T A) (this : T) (rt : Runtime) :
  (debug message e ;; m) this rt = m this rt.
Proof. reflexivity. Qed.

Lemma dequeue_Some (w w' : World) (e : Event) :
  dequeue w = Some (e, w') ->
  microtasks (runtime w) = e :: microtasks (runtime w')
  /\ heap (runtime w') = heap (runtime w)
  /\ cursor (runtime w') = cursor (runtime w)
  /\ entropy (runtime w') = entropy (runtime w)
  /\ delegates w' = delegates w
  /\ delegators w' = delegators w.
Proof.
  unfold dequeue. destruct (microtasks (runtime w)) as [| e0 q] eqn:Hq; [discriminate |].
  intros [= <- <-]. simpl. auto 10.
Qed.

(** C3, as stated, fails: the request for an identifier the registry holds
    no function for is answered by no reply at all; the TypeError leaves the
    microtask uncaught and the caller's promise is still pending. *)
Lemma unknown_function_gets_no_reply :
  let req := DelegateRequest.mk (sample_uuids 3) (sample_uuids 1) [VNumber 21] in
  microtasks (runtime call_without_function) = [Ev_delegate req]
  /\ own_get (DelegatorPool.pool (delegators call_without_function)) (DelegateRequest.id req)
     = None
  /\ exists w' : World,
       run_microtask call_without_function = Crashed TypeError w'
       /\ microtasks (runtime w') = []
       /\ DelegatePool.pool (delegates w') !! sample_uuids 1 = Some (Deferred.mk 0)
       /\ heap (runtime w') !! 0 = Some Pending.
Proof.
  split; [reflexivity |]. split; [reflexivity |].
  eexists. split; [reflexivity |]. split; [reflexivity |]. split; reflexivity.
Qed.

(** C3, amended. For a call request whose identifier has no entry in the
    registry's function map and names no member that a plain object
    inherits from [Object.prototype], [handleDelegateRequest] throws a TypeError,
    queues no reply and changes nothing; delivered by the event loop, the
    exception is uncaught in the microtask, and the state left behind is the
    one before delivery with the request taken off the queue, so the promise
    cells (the caller's pending one among them) are as they were. *)
Theorem unknown_function_throws_uncaught (req : DelegateRequest.t) (w w' : World) :
  dequeue w = Some (Ev_delegate req, w') ->
  own_get (DelegatorPool.pool (delegators w)) (DelegateRequest.id req) = None ->
  DelegateRequest.id req ∉ Object_prototype_names ->
  DelegatorPool.handleDelegateRequest req (delegators w) (runtime w')
  = (Throw TypeError, delegators w, runtime w')
  /\ run_microtask w = Crashed TypeError w'
  /\ heap (runtime w') = heap (runtime w)
  /\ delegates w' = delegates w.
Proof.
  intros Hdq Hnone Hname.
  pose proof (dequeue_Some _ _ _ Hdq) as (_ & Hheap & _ & _ & Hd & Hr).
  split; [apply handleDelegateRequest_missing; assumption |].
  split; [| auto].
  unfold run_microtask. rewrite Hdq. simpl. unfold on_delegators.
  rewrite debug_then, Hr. rewrite (handleDelegateRequest_missing _ _ _ Hnone Hname).
  rewrite <- Hr. destruct w'; reflexivity.
Qed.

Lemma unknown_function_throws_uncaught_witness :
  run_microtask call_without_function
  = Crashed TypeError (reordered [] call_without_function).
Proof.
  apply (unknown_function_throws_uncaught
           (DelegateRequest.mk (sample_uuids 3) (sample_uuids 1) [VNumber 21])
           call_without_function (reordered [] call_without_function)).
  - reflexivity.
  - reflexivity.
  - apply (bool_decide_unpack _). vm_compute. exact I.
Defined.

(** A request under a name the function map only inherits is not a miss:
    the inherited member is applied with [this = null]. ['toString'] and
    ['constructor'] are answered; ['valueOf'] throws. *)
Example inherited_member_is_applied :
  DelegatorPool.handleDelegateRequest
    (DelegateRequest.mk "toString" (sample_uuids 2) [VNumber 1]) one_function (idle 2)
  = (Normal tt, one_function,
     set_microtasks
       [Ev_delegate_reply (DelegateReply.mk (sample_uuids 2) (VString "[object Null]"))]
       (idle 2))
  /\ DelegatorPool.handleDelegateRequest
       (DelegateRequest.mk "constructor" (sample_uuids 2) [VNumber 1]) one_function (idle 2)
     = (Normal tt, one_function,
        set_microtasks
          [Ev_delegate_reply (DelegateReply.mk (sample_uuids 2) (VBoxed (VNumber 1)))]
          (idle 2))
  /\ DelegatorPool.handleDelegateRequest
       (DelegateRequest.mk "valueOf" (sample_uuids 2) [VNumber 1]) one_function (idle 2)
     = (Throw TypeError, one_function, idle 2).
Proof. split; [reflexivity |]. split; reflexivity. Qed.

Lemma forEach_emit_unregister (keys : list uuid) (this : DelegatorPool.t) (rt : Runtime) :
  forEach keys (fun delegatorId =>
    this <- get_this ;;
    emit (Ev_unregister (UnregisterRequest.mk (DelegatorPool.id this) delegatorId))) this rt
  = (Normal tt, this,
     set_microtasks
       (microtasks rt
        ++ map (fun delegatorId =>
                  Ev_unregister (UnregisterRequest.mk (DelegatorPool.id this) delegatorId))
               keys) rt).
Proof.
  revert rt. induction keys as [| k keys IH]; intros rt; simpl.
  - rewrite app_nil_r. destruct rt; reflexivity.
  - unfold bind at 1. unfold bind at 1. unfold get_this at 1. unfold emit at 1.
    rewrite IH. unfold set_microtasks. simpl. rewrite <- app_assoc. reflexivity.
Qed.

Lemma dispose_runs (this : DelegatorPool.t) (rt : Runtime) :
  DelegatorPool.dispose this rt
  = (Normal tt, this, set_microtasks (microtasks rt ++ unregister_notices this) rt).
Proof.
  unfold DelegatorPool.dispose. unfold bind at 1. unfold get_this at 1.
  apply forEach_emit_unregister.
Qed.

(** C6, as stated, fails: after [dispose] the function map is not empty and
    a request for a previously registered identifier is still executed and
    answered. *)
Lemma dispose_leaves_functions_callable :
  let req := DelegateRequest.mk (sample_uuids 1) (sample_uuids 2) [VNumber 0] in
  exists (this' : DelegatorPool.t) (rt' : Runtime),
    DelegatorPool.dispose one_function (idle 2) = (Normal tt, this', rt')
    /\ DelegatorPool.pool this' <> []
    /\ DelegatorPool.handleDelegateRequest req this' rt'
       = (Normal tt, this',
          set_microtasks
            (microtasks rt' ++ [Ev_delegate_reply (DelegateReply.mk (sample_uuids 2) (VNumber 42))])
            rt').
Proof.
  eexists. eexists. split; [reflexivity |]. split; [discriminate | reflexivity].
Qed.

(** C6, amended. [dispose] returns normally after queueing one 'unregister'
    notice [{delegatorId, senderId: this.id}] for every key of the function
    map, in key order, and changes nothing else: the registry object, its
    function map included, is the same afterwards. A call request received
    later for a registered identifier is therefore still executed and
    answered with the handler's result. *)
Theorem dispose_notifies_and_keeps_functions (this : DelegatorPool.t) (rt : Runtime) :
  DelegatorPool.dispose this rt
  = (Normal tt, this, set_microtasks (microtasks rt ++ unregister_notices this) rt)
  /\ (forall delegatorId : uuid,
        delegatorId ∈ Object_keys (DelegatorPool.pool this) <->
        Ev_unregister (UnregisterRequest.mk (DelegatorPool.id this) delegatorId)
          ∈ unregister_notices this)
  /\ length (unregister_notices this) = length (DelegatorPool.pool this)
  /\ (forall (req : DelegateRequest.t) (fn : Function) (result : value) (rt' : Runtime),
        own_get (DelegatorPool.pool this) (DelegateRequest.id req) = Some fn ->
        fn (DelegateRequest.args req) = Normal result ->
        DelegatorPool.handleDelegateRequest req this rt'
        = (Normal tt, this,
           set_microtasks
             (microtasks rt'
              ++ [Ev_delegate_reply (DelegateReply.mk (DelegateRequest.rid req) result)])
             rt')).
Proof.
  split; [apply dispose_runs |]. split; [| split].
  - intros k. unfold unregister_notices. rewrite list_elem_of_fmap. split.
    + intros Hk. exists k. split; [reflexivity | exact Hk].
    + intros (k' & Heq & Hk'). injection Heq as ->. exact Hk'.
  - unfold unregister_notices, Object_keys. rewrite !length_map. reflexivity.
  - intros req fn result rt'. apply handleDelegateRequest_registered.
Qed.

Lemma dispose_notifies_and_keeps_functions_witness :
  DelegatorPool.dispose one_function (idle 2)
  = (Normal tt, one_function,
     set_microtasks
       [Ev_unregister (UnregisterRequest.mk (sample_uuids 0) (sample_uuids 1))] (idle 2))
  /\ DelegatorPool.handleDelegateRequest
       (DelegateRequest.mk (sample_uuids 1) (sample_uuids 2) [VNumber 0]) one_function (idle 3)
     = (Normal tt, one_function,
        set_microtasks
          [Ev_delegate_reply (DelegateReply.mk (sample_uuids 2) (VNumber 42))] (idle 3)).
Proof.
  pose proof (dispose_notifies_and_keeps_functions one_function (idle 2))
    as (Hrun & _ & _ & Hcall).
  split; [exact Hrun |].
  apply (Hcall (DelegateRequest.mk (sample_uuids 1) (sample_uuids 2) [VNumber 0]) add42
           (VNumber 42) (idle 3)).
  - reflexivity.
  - reflexivity.
Defined.

(** C7, as stated, fails: for an asynchronous handler the reply that is
    queued carries the Promise the handler returned, not the value it
    settles with. *)
Lemma async_reply_carries_the_promise :
  let req := DelegateRequest.mk (sample_uuids 1) (sample_uuids 2) [] in
  exists result : value,
    DelegatorPool.handleDelegateRequest req one_async_function (idle 2)
    = (Normal tt, one_async_function,
       set_microtasks [Ev_delegate_reply (DelegateReply.mk (sample_uuids 2) result)] (idle 2))
    /\ is_pending_computation result = true
    /\ result <> settled result.
Proof.
  exists (VPromise (VNumber 42)). split; [reflexivity |]. split; [reflexivity | discriminate].
Qed.

(** C7, amended. For a call request whose handler returns a value, the
    reply queued by [handleDelegateRequest] carries exactly that value under
    the request's [rid]; nothing is awaited, so when the handler is
    asynchronous the reply carries the pending computation itself. *)
Theorem reply_carries_returned_value (req : DelegateRequest.t) (fn : Function)
    (result : value) (this : DelegatorPool.t) (rt : Runtime) :
  own_get (DelegatorPool.pool this) (DelegateRequest.id req) = Some fn ->
  fn (DelegateRequest.args req) = Normal result ->
  DelegatorPool.handleDelegateRequest req this rt
  = (Normal tt, this,
     set_microtasks
       (microtasks rt ++ [Ev_delegate_reply (DelegateReply.mk (DelegateRequest.rid req) result)])
       rt).
Proof.
  intros Hfn Hresult. unfold DelegatorPool.handleDelegateRequest.
  unfold bind at 1, get_this at 1. rewrite Hfn.
  unfold bind, apply. rewrite Hresult. reflexivity.
Qed.

Lemma reply_carries_returned_value_witness :
  DelegatorPool.handleDelegateRequest
    (DelegateRequest.mk (sample_uuids 1) (sample_uuids 2) []) one_async_function (idle 2)
  = (Normal tt, one_async_function,
     set_microtasks
       [Ev_delegate_reply (DelegateReply.mk (sample_uuids 2) (VPromise (VNumber 42)))] (idle 2)).
Proof.
  apply (reply_carries_returned_value
           (DelegateRequest.mk (sample_uuids 1) (sample_uuids 2) []) later42
           (VPromise (VNumber 42)) one_async_function (idle 2)).
  - reflexivity.
  - reflexivity.
Defined.

(** C9, as stated, fails: an acknowledgment for which no waiter exists makes
    [handleRegisterReply] throw. *)
Lemma unexpected_ack_raises :
  let reply := RegisterReply.mk (sample_uuids 1) in
  DelegatorPool.uponRegister one_function !! RegisterReply.delegatorId reply = None
  /\ DelegatorPool.handleRegisterReply reply one_function (idle 2)
     = (Throw TypeError, one_function, idle 2).
Proof. split; reflexivity. Qed.

(** C9, amended. When a waiter exists for the acknowledged identifier,
    [handleRegisterReply] returns normally and resolves the waiter's promise
    (with [undefined]; a pending promise becomes resolved), changing nothing
    else. When no waiter exists it throws a TypeError and changes nothing. *)
Theorem handleRegisterReply_cases (reply : RegisterReply.t)
    (this : DelegatorPool.t) (rt : Runtime) :
  (forall d : Deferred.t,
     DelegatorPool.uponRegister this !! RegisterReply.delegatorId reply = Some d ->
     DelegatorPool.handleRegisterReply reply this rt
     = (Normal tt, this,
        set_heap (Deferred.settle (Resolved VUndefined) (Deferred.promise d) (heap rt)) rt)
     /\ (heap rt !! Deferred.promise d = Some Pending ->
         Deferred.settle (Resolved VUndefined) (Deferred.promise d) (heap rt)
           !! Deferred.promise d = Some (Resolved VUndefined)))
  /\ (DelegatorPool.uponRegister this !! RegisterReply.delegatorId reply = None ->
      DelegatorPool.handleRegisterReply reply this rt = (Throw TypeError, this, rt)).
Proof.
  split.
  - intros d Hd. split.
    + unfold_method. rewrite Hd. reflexivity.
    + intros Hp. rewrite (settle_pending _ _ _ Hp).
      apply list_lookup_insert_eq. apply lookup_lt_Some in Hp. exact Hp.
  - intros Hnone. unfold_method. rewrite Hnone. reflexivity.
Qed.

Lemma handleRegisterReply_cases_witness :
  DelegatorPool.handleRegisterReply (RegisterReply.mk (sample_uuids 1)) one_waiter one_cell
  = (Normal tt, one_waiter, set_heap [Resolved VUndefined] one_cell)
  /\ DelegatorPool.handleRegisterReply (RegisterReply.mk (sample_uuids 1)) one_function (idle 2)
     = (Throw TypeError, one_function, idle 2).
Proof.
  split.
  - apply (proj1 (handleRegisterReply_cases (RegisterReply.mk (sample_uuids 1))
                    one_waiter one_cell) (Deferred.mk 0)).
    reflexivity.
  - apply (proj2 (handleRegisterReply_cases (RegisterReply.mk (sample_uuids 1))
                    one_function (idle 2))).
    reflexivity.
Defined.

(** ** Calls and the event loop *)

(** A call against a callable target: the reply identifier is the next
    uuid, the Deferred is a new cell, and the request goes to the back of the
    microtask queue. *)
Lemma delegate_registered (id : uuid) (args : list value)
    (this : DelegatePool.t) (rt : Runtime) :
  id ∈ DelegatePool.delegates this ->
  DelegatePool.delegate id args this rt
  = (Normal (length (heap rt)),
     DelegatePool.set_pool
       (<[entropy rt (cursor rt) := Deferred.mk (length (heap rt))]> (DelegatePool.pool this))
       this,
     mkRuntime (entropy rt) (S (cursor rt))
       (microtasks rt ++ [Ev_delegate (DelegateRequest.mk id (entropy rt (cursor rt)) args)])
       (heap rt ++ [Pending])).
Proof.
  intros Hin. unfold_method.
  destruct (decide (id ∈ DelegatePool.delegates this)) as [_ | Hnot]; [| contradiction].
  simpl. rewrite lookup_insert_eq. reflexivity.
Qed.

Lemma delegate_Normal_inv (id : uuid) (args : list value) (p : Promise)
    (this this' : DelegatePool.t) (rt rt' : Runtime) :
  DelegatePool.delegate id args this rt = (Normal p, this', rt') ->
  id ∈ DelegatePool.delegates this.
Proof.
  intros Hrun. destruct (decide (id ∈ DelegatePool.delegates this)) as [Hin | Hnot]; [exact Hin |].
  rewrite (delegate_not_callable _ _ _ _ Hnot) in Hrun. discriminate.
Qed.

Lemma replies_expected_boot (src : nat -> uuid) : replies_expected (boot src).
Proof. intros e rid He. simpl in He. inversion He. Qed.

(** The invariant survives a step that keeps the known reply identifiers and
    appends only events whose reply identifier is known afterwards. *)
Lemma replies_expected_extend (w w' : World) (q new : list Event) :
  replies_expected w ->
  (forall e : Event, e ∈ q -> e ∈ microtasks (runtime w)) ->
  microtasks (runtime w') = q ++ new ->
  (forall rid : uuid,
     is_Some (DelegatePool.pool (delegates w) !! rid) ->
     is_Some (DelegatePool.pool (delegates w') !! rid)) ->
  (forall (e : Event) (rid : uuid),
     e ∈ new -> reply_id e = Some rid ->
     is_Some (DelegatePool.pool (delegates w') !! rid)) ->
  replies_expected w'.
Proof.
  intros Hinv Hq Hq' Hmono Hnew e rid He Hrid.
  rewrite Hq' in He. apply elem_of_app in He as [He | He].
  - apply Hmono. exact (Hinv e rid (Hq e He) Hrid).
  - exact (Hnew e rid He Hrid).
Qed.

Lemma replies_expected_call (id : uuid) (args : list value) (w : World) :
  replies_expected w ->
  replies_expected (snd (on_delegates (DelegatePool.delegate id args) w)).
Proof.
  intros Hinv. unfold on_delegates.
  destruct (decide (id ∈ DelegatePool.delegates (delegates w))) as [Hin | Hnot].
  - rewrite (delegate_registered _ _ _ _ Hin). simpl.
    eapply (replies_expected_extend w _ (microtasks (runtime w))); simpl; eauto.
    + intros rid Hsome. destruct (decide (entropy (runtime w) (cursor (runtime w)) = rid)) as [-> | Hne].
      * rewrite lookup_insert_eq. eauto.
      * rewrite lookup_insert_ne by exact Hne. exact Hsome.
    + intros e rid He Hrid. apply list_elem_of_singleton in He. subst e.
      simpl in Hrid. injection Hrid as <-. rewrite lookup_insert_eq. eauto.
  - rewrite (delegate_not_callable _ _ _ _ Hnot). simpl.
    destruct w; exact Hinv.
Qed.

Lemma replies_expected_tick (w w' : World) :
  replies_expected w -> run_microtask w = Running w' -> replies_expected w'.
Proof.
  intros Hinv. unfold run_microtask.
  destruct (dequeue w) as [[e w0] |] eqn:Hdq; [| intros [= <-]; exact Hinv].
  pose proof (dequeue_Some _ _ _ Hdq) as (Hq & _ & _ & _ & Hd & Hr).
  assert (Htail : forall e' : Event,
            e' ∈ microtasks (runtime w0) -> e' ∈ microtasks (runtime w)).
  { intros e' He'. rewrite Hq. apply list_elem_of_further. exact He'. }
  destruct e as [req | reply | req | reply | req]; simpl.
  - (* 'register' *)
    unfold on_delegates. unfold_method. simpl. intros [= <-].
    eapply (replies_expected_extend w _ (microtasks (runtime w0))); simpl; eauto.
    + rewrite Hd. auto.
    + intros e rid He Hrid. apply list_elem_of_singleton in He. subst e. discriminate.
  - (* '@register' *)
    unfold on_delegators. unfold_method.
    destruct (DelegatorPool.uponRegister (delegators w0) !! RegisterReply.delegatorId reply);
      simpl; [| discriminate].
    intros [= <-].
    eapply (replies_expected_extend w _ (microtasks (runtime w0)) []); simpl; eauto.
    + rewrite app_nil_r. reflexivity.
    + rewrite Hd. auto.
    + intros e rid He. inversion He.
  - (* 'delegate' *)
    unfold on_delegators. rewrite debug_then.
    destruct (handleDelegateRequest_cases req (delegators w0) (runtime w0))
      as [[err ->] | [result ->]]; simpl; [discriminate |].
    intros [= <-].
    eapply (replies_expected_extend w _ (microtasks (runtime w0))); simpl; eauto.
    + rewrite Hd. auto.
    + intros e rid He Hrid. apply list_elem_of_singleton in He. subst e.
      simpl in Hrid. injection Hrid as <-. rewrite Hd.
      apply (Hinv (Ev_delegate req)); [| reflexivity].
      rewrite Hq. apply list_elem_of_here.
  - (* '@delegate' *)
    unfold on_delegates. unfold_method.
    destruct (DelegatePool.pool (delegates w0) !! DelegateReply.rid reply);
      simpl; [| discriminate].
    intros [= <-].
    eapply (replies_expected_extend w _ (microtasks (runtime w0)) []); simpl; eauto.
    + rewrite app_nil_r. reflexivity.
    + rewrite Hd. auto.
    + intros e rid He. inversion He.
  - (* 'unregister' *)
    unfold on_delegates. unfold_method. simpl. intros [= <-].
    eapply (replies_expected_extend w _ (microtasks (runtime w0)) []); simpl; eauto.
    + rewrite app_nil_r. reflexivity.
    + rewrite Hd. auto.
    + intros e rid He. inversion He.
Qed.

Lemma replies_expected_perform (a : Action) (w w' : World) :
  replies_expected w -> perform a w = Running w' -> replies_expected w'.
Proof.
  intros Hinv. destruct a as [id args | id | fn | delegatorId | |]; simpl.
  - intros [= <-]. apply replies_expected_call. exact Hinv.
  - intros [= <-]. intros e rid He Hrid. exact (Hinv e rid He Hrid).
  - intros [= <-]. intros e rid He Hrid. exact (Hinv e rid He Hrid).
  - intros [= <-].
    eapply (replies_expected_extend w _ (microtasks (runtime w))); simpl; eauto.
    intros e rid He Hrid. apply list_elem_of_singleton in He. subst e. discriminate.
  - intros [= <-]. unfold on_delegators. rewrite dispose_runs. simpl.
    eapply (replies_expected_extend w _ (microtasks (runtime w))); simpl; eauto.
    intros e rid He Hrid. unfold unregister_notices in He.
    apply list_elem_of_fmap in He as (k & -> & _). discriminate.
  - apply replies_expected_tick. exact Hinv.
Qed.

Lemma reachable_replies_expected (w : World) : reachable w -> replies_expected w.
Proof.
  induction 1 as [src | a w w' _ IH Hstep].
  - apply replies_expected_boot.
  - exact (replies_expected_perform a w w' IH Hstep).
Qed.

(** C10. In every state the process can reach: a call that succeeds has
    stored its Deferred (a new, pending cell) in the pending map under the
    reply identifier of the request it queued, the request sits at the back
    of the microtask queue and no listener has run (the registry is
    untouched); every 'delegate' request and every '@delegate' reply on the
    queue names a reply identifier the pending map already holds; and so the
    delivery of a queued reply always finds its Pending Call. *)
Theorem pending_call_precedes_delivery (w : World) :
  reachable w ->
  (forall (id : uuid) (args : list value) (p : Promise) (w' : World),
     on_delegates (DelegatePool.delegate id args) w = (Normal p, w') ->
     exists rid : uuid,
       DelegatePool.pool (delegates w') !! rid = Some (Deferred.mk p)
       /\ heap (runtime w') !! p = Some Pending
       /\ microtasks (runtime w')
          = microtasks (runtime w) ++ [Ev_delegate (DelegateRequest.mk id rid args)]
       /\ delegators w' = delegators w)
  /\ (forall (e : Event) (rid : uuid),
        e ∈ microtasks (runtime w) -> reply_id e = Some rid ->
        is_Some (DelegatePool.pool (delegates w) !! rid))
  /\ (forall (reply : DelegateReply.t) (w0 : World),
        dequeue w = Some (Ev_delegate_reply reply, w0) ->
        exists w' : World, run_microtask w = Running w').
Proof.
  intros Hreach. pose proof (reachable_replies_expected w Hreach) as Hinv.
  split; [| split].
  - intros id args p w' Hrun. unfold on_delegates in Hrun.
    destruct (DelegatePool.delegate id args (delegates w) (runtime w))
      as [[c this'] rt'] eqn:Hcall.
    injection Hrun as -> <-.
    pose proof (delegate_Normal_inv _ _ _ _ _ _ _ Hcall) as Hin.
    rewrite (delegate_registered _ _ _ _ Hin) in Hcall. injection Hcall as <- <- <-.
    exists (entropy (runtime w) (cursor (runtime w))). simpl.
    split; [apply lookup_insert_eq |]. split; [| split; reflexivity].
    rewrite lookup_app_r by reflexivity. rewrite Nat.sub_diag. reflexivity.
  - exact Hinv.
  - intros reply w0 Hdq.
    pose proof (dequeue_Some _ _ _ Hdq) as (Hq & _ & _ & _ & Hd & _).
    destruct (Hinv (Ev_delegate_reply reply) (DelegateReply.rid reply)) as [d Hlook];
      [rewrite Hq; apply list_elem_of_here | reflexivity |].
    unfold run_microtask. rewrite Hdq. simpl. unfold on_delegates.
    rewrite debug_then, Hd. rewrite (handleDelegateReply_found _ _ _ _ Hlook). eauto.
Qed.

Lemma run_actions_reachable (actions : list Action) (w w' : World) :
  reachable w -> run_actions actions w = Running w' -> reachable w'.
Proof.
  revert w. induction actions as [| a actions IH]; intros w Hreach; simpl.
  - intros [= <-]. exact Hreach.
  - destruct (perform a w) as [w1 | e w1] eqn:Hstep; [| discriminate].
    apply IH. exact (reachable_perform a w w1 Hreach Hstep).
Qed.

Lemma pending_call_precedes_delivery_witness :
  microtasks (runtime reply_in_flight)
  = [Ev_delegate_reply (DelegateReply.mk (sample_uuids 2) (VNumber 42))]
  /\ is_Some (DelegatePool.pool (delegates reply_in_flight) !! sample_uuids 2)
  /\ exists w' : World, run_microtask reply_in_flight = Running w'.
Proof.
  assert (Hreach : reachable reply_in_flight).
  { apply (run_actions_reachable
             [CreateDelegator add42; CreateDelegate (sample_uuids 1);
              Call (sample_uuids 1) [VNumber 0]; Tick] (boot sample_uuids)).
    - apply reachable_boot.
    - reflexivity. }
  destruct (pending_call_precedes_delivery reply_in_flight Hreach) as (_ & Hknown & Hdeliver).
  split; [reflexivity |]. split.
  - apply (Hknown (Ev_delegate_reply (DelegateReply.mk (sample_uuids 2) (VNumber 42)))).
    + apply list_elem_of_here.
    + reflexivity.
  - apply (Hdeliver (DelegateReply.mk (sample_uuids 2) (VNumber 42))
             (reordered [] reply_in_flight)).
    reflexivity.
Defined.

(** ** Reply correlation *)






(** Two calls, replies handed over in reverse: each promise gets its own
    result. *)
Example two_calls_replies_reversed :
  match on_delegates (concurrent_calls (sample_uuids 1) [[VNumber 1]; [VNumber 2]]) wired with
  | (Normal ps, w1) =>
      match run_microtasks 2 w1 with
      | Running w2 =>
          match run_microtasks 2 (reordered (rev (microtasks (runtime w2))) w2) with
          | Running w3 =>
              ps = [0; 1]
              /\ heap (runtime w3) = [Resolved (VNumber 43); Resolved (VNumber 44)]
          | Crashed _ _ => False
          end
      | Crashed _ _ => False
      end
  | (Throw _, _) => False
  end.
Proof. vm_compute. split; reflexivity. Qed.

(** Why the reply identifiers must be distinct: when [uuidgen] repeats
    itself the second call takes over the first one's entry, the first
    promise is never resolved and the second gets the first reply. *)
Example colliding_reply_ids :
  let w := mkWorld (mkRuntime (fun _ => sample_uuids 2) 2 [] [])
             (delegates wired) (delegators wired) in
  match on_delegates (concurrent_calls (sample_uuids 1) [[VNumber 1]; [VNumber 2]]) w with
  | (Normal ps, w1) =>
      match run_microtasks 4 w1 with
      | Running w2 => ps = [0; 1] /\ heap (runtime w2) = [Pending; Resolved (VNumber 43)]
      | Crashed _ _ => False
      end
  | (Throw _, _) => False
  end.
Proof. vm_compute. split; reflexivity. Qed.



(** * Further properties of the code *)

(** ** [Deferred] *)

Lemma settle_twice (st1 st2 : PromiseState) (p : Promise) (h : list PromiseState) :
  st1 <> Pending ->
  Deferred.settle st2 p (Deferred.settle st1 p h) = Deferred.settle st1 p h.
Proof.
  intros Hst1. destruct (h !! p) as [st |] eqn:Hp.
  - assert (Hcases : st = Pending \/ st <> Pending).
    { destruct st; [left; reflexivity | right; discriminate | right; discriminate]. }
    destruct Hcases as [-> | Hst].
    + rewrite (settle_pending st1 p h Hp).
      apply (settle_settled st2 st1).
      * apply list_lookup_insert_eq. apply lookup_lt_Some in Hp. exact Hp.
      * exact Hst1.
    + rewrite (settle_settled st1 st p h Hp Hst). exact (settle_settled st2 st p h Hp Hst).
  - unfold Deferred.settle. rewrite Hp. rewrite Hp. reflexivity.
Qed.

(** X1. The first settlement of a Deferred wins: a [resolve] followed by a
    [reject] or by a second [resolve], and a [reject] followed by a
    [resolve], leave everything exactly as the first call alone does. *)
Theorem deferred_first_settlement_wins {T : Type} (d : Deferred.t) (v v' : value)
    (this : T) (rt : Runtime) :
  (Deferred.resolve d v ;; Deferred.reject d v') this rt = Deferred.resolve d v this rt
  /\ (Deferred.resolve d v ;; Deferred.resolve d v') this rt = Deferred.resolve d v this rt
  /\ (Deferred.reject d v ;; Deferred.resolve d v') this rt = Deferred.reject d v this rt.
Proof.
  unfold bind, Deferred.resolve, Deferred.reject, set_heap. simpl.
  rewrite !settle_twice by discriminate. auto.
Qed.

(** X2. [new Deferred()] takes a cell that no existing promise occupies,
    pending, and leaves every existing cell as it was; resolving the new
    Deferred fills that cell and no other. *)
Theorem deferred_new_is_fresh {T : Type} (v : value) (this : T) (rt : Runtime) :
  exists (d : Deferred.t) (rt1 rt2 : Runtime),
    Deferred.new this rt = (Normal d, this, rt1)
    /\ heap rt !! Deferred.promise d = None
    /\ heap rt1 !! Deferred.promise d = Some Pending
    /\ Deferred.resolve d v this rt1 = (Normal tt, this, rt2)
    /\ heap rt2 !! Deferred.promise d = Some (Resolved v)
    /\ (forall (p : Promise) (st : PromiseState),
          heap rt !! p = Some st -> heap rt1 !! p = Some st /\ heap rt2 !! p = Some st)
    /\ length (heap rt2) = S (length (heap rt))
    /\ microtasks rt2 = microtasks rt /\ cursor rt2 = cursor rt.
Proof.
  eexists. eexists. eexists. split; [reflexivity |]. simpl.
  assert (Hnew : (heap rt ++ [Pending]) !! length (heap rt) = Some Pending).
  { rewrite lookup_app_r by reflexivity. rewrite Nat.sub_diag. reflexivity. }
  split; [apply lookup_ge_None; reflexivity |].
  split; [exact Hnew |].
  split; [reflexivity |]. simpl. rewrite (settle_pending _ _ _ Hnew).
  split.
  { apply list_lookup_insert_eq. rewrite length_app. simpl. lia. }
  split.
  { intros p st Hp. pose proof (lookup_lt_Some _ _ _ Hp) as Hlt.
    split.
    - rewrite lookup_app_l by exact Hlt. exact Hp.
    - rewrite list_lookup_insert_ne by lia. rewrite lookup_app_l by exact Hlt. exact Hp. }
  split; [| auto].
  rewrite length_insert, length_app. simpl. lia.
Qed.

(** ** [DelegatePool.create] and the proxy it returns *)

(** X3. [create(id)] adds [id] to [delegates] and changes nothing else; the
    proxy it returns is [delegate] bound to [id], and called right away it
    succeeds: it returns a new pending promise and queues the request. *)
Theorem create_returns_callable_proxy (id : uuid) (args : list value)
    (this : DelegatePool.t) (rt : Runtime) :
  exists (tx : list value -> M DelegatePool.t Promise) (this' : DelegatePool.t),
    DelegatePool.create id this rt = (Normal tx, this', rt)
    /\ DelegatePool.delegates this' = {[id]} ∪ DelegatePool.delegates this
    /\ DelegatePool.pool this' = DelegatePool.pool this
    /\ tx = DelegatePool.delegate id
    /\ exists (this'' : DelegatePool.t) (rt'' : Runtime),
         tx args this' rt = (Normal (length (heap rt)), this'', rt'')
         /\ heap rt'' = heap rt ++ [Pending]
         /\ microtasks rt''
            = microtasks rt
              ++ [Ev_delegate (DelegateRequest.mk id (entropy rt (cursor rt)) args)].
Proof.
  eexists. eexists. split; [reflexivity |]. simpl.
  split; [reflexivity |]. split; [reflexivity |]. split; [reflexivity |].
  eexists. eexists. split.
  - apply delegate_registered. simpl. apply elem_of_union_l, elem_of_singleton. reflexivity.
  - simpl. auto.
Qed.

(** X4. The proxy stays bound to the pool's [delegates] set: once the
    'unregister' notice for its identifier has been handled the same proxy
    throws the unregistered-delegate error, and a later [create] of the same
    identifier, whatever proxy that call returns, makes the old proxy work
    again. *)
Theorem proxy_follows_registration (id sender : uuid) (args : list value)
    (this : DelegatePool.t) (rt : Runtime) :
  exists (tx tx' : list value -> M DelegatePool.t Promise)
         (this1 this2 this3 : DelegatePool.t),
    DelegatePool.create id this rt = (Normal tx, this1, rt)
    /\ DelegatePool.handleUnregisterRequest (UnregisterRequest.mk sender id) this1 rt
       = (Normal tt, this2, rt)
    /\ tx args this2 rt
       = (Throw (Error ("Unregistered delegate " +:+ id +:+ " was called")), this2, rt)
    /\ DelegatePool.create id this2 rt = (Normal tx', this3, rt)
    /\ fst (fst (tx args this3 rt)) = Normal (length (heap rt)).
Proof.
  eexists. eexists. eexists. eexists. eexists.
  split; [reflexivity |]. split; [reflexivity |]. split.
  - apply delegate_not_callable. simpl.
    rewrite elem_of_difference, elem_of_singleton. tauto.
  - split; [reflexivity |].
    rewrite delegate_registered; [reflexivity |].
    simpl. apply elem_of_union_l, elem_of_singleton. reflexivity.
Qed.

(** ** [DelegatorPool.create] *)

Lemma own_get_set_eq {A} (o : list (uuid * A)) (k : uuid) (a : A) :
  own_get (own_set o k a) k = Some a.
Proof.
  induction o as [| [k' a'] o IH]; simpl.
  - rewrite String.eqb_refl. reflexivity.
  - destruct (String.eqb k' k) eqn:Hk; simpl; rewrite Hk; [reflexivity | exact IH].
Qed.

Lemma own_get_set_ne {A} (o : list (uuid * A)) (k k' : uuid) (a : A) :
  k <> k' -> own_get (own_set o k a) k' = own_get o k'.
Proof.
  intros Hne. induction o as [| [k0 a0] o IH]; simpl.
  - destruct (String.eqb k k') eqn:Hk; [apply String.eqb_eq in Hk; contradiction | reflexivity].
  - destruct (String.eqb k0 k) eqn:Hk; simpl.
    + apply String.eqb_eq in Hk. subst k0.
      destruct (String.eqb k k') eqn:Hk'; [| reflexivity].
      apply String.eqb_eq in Hk'. contradiction.
    + rewrite IH. reflexivity.
Qed.

Lemma Object_keys_set_new {A} (o : list (uuid * A)) (k : uuid) (a : A) :
  own_get o k = None -> Object_keys (own_set o k a) = Object_keys o ++ [k].
Proof.
  unfold Object_keys. induction o as [| [k0 a0] o IH]; simpl; [reflexivity |].
  destruct (String.eqb k0 k) eqn:Hk; [discriminate |].
  intros Hnone. simpl. rewrite (IH Hnone). reflexivity.
Qed.

Lemma Object_keys_set_old {A} (o : list (uuid * A)) (k : uuid) (a a' : A) :
  own_get o k = Some a' -> Object_keys (own_set o k a) = Object_keys o.
Proof.
  unfold Object_keys. induction o as [| [k0 a0] o IH]; simpl; [discriminate |].
  destruct (String.eqb k0 k) eqn:Hk; [reflexivity |].
  intros Hsome. simpl. rewrite (IH Hsome). reflexivity.
Qed.

(** X5. [create(fn)] draws the next uuid, returns it with [fn] itself, and
    stores [fn] under it: the function map answers the new identifier with
    [fn] and every other identifier as before. A new identifier becomes
    the last key; one that was already a key keeps its place. The registry's
    own id and its waiters are unchanged and nothing is queued: creating a
    delegator announces nothing. *)
Theorem delegator_create_stores_function (fn : Function)
    (this : DelegatorPool.t) (rt : Runtime) :
  let id := entropy rt (cursor rt) in
  exists this' : DelegatorPool.t,
    DelegatorPool.create fn this rt = (Normal (id, fn), this', set_cursor (S (cursor rt)) rt)
    /\ own_get (DelegatorPool.pool this') id = Some fn
    /\ (forall k : uuid, k <> id ->
          own_get (DelegatorPool.pool this') k = own_get (DelegatorPool.pool this) k)
    /\ (own_get (DelegatorPool.pool this) id = None ->
        Object_keys (DelegatorPool.pool this') = Object_keys (DelegatorPool.pool this) ++ [id])
    /\ (is_Some (own_get (DelegatorPool.pool this) id) ->
        Object_keys (DelegatorPool.pool this') = Object_keys (DelegatorPool.pool this))
    /\ DelegatorPool.id this' = DelegatorPool.id this
    /\ DelegatorPool.uponRegister this' = DelegatorPool.uponRegister this.
Proof.
  intros id. eexists. split; [reflexivity |]. simpl.
  split; [apply own_get_set_eq |].
  split.
  { intros k Hk. apply own_get_set_ne. intros Heq. apply Hk. symmetry. exact Heq. }
  split; [apply Object_keys_set_new |].
  split; [| auto].
  intros [fn' Hfn']. exact (Object_keys_set_old _ _ _ _ Hfn').
Qed.

Lemma delegator_create_stores_function_witness :
  exists this' : DelegatorPool.t,
    DelegatorPool.create always100 one_function (idle 2)
    = (Normal (sample_uuids 2, always100), this', idle 3)
    /\ Object_keys (DelegatorPool.pool this') = [sample_uuids 1; sample_uuids 2].
Proof.
  destruct (delegator_create_stores_function always100 one_function (idle 2))
    as (this' & Hrun & _ & _ & Hnew & _).
  exists this'. split; [exact Hrun |].
  apply Hnew. reflexivity.
Defined.

(** X6. A function is served as soon as it is created, without any
    registration: a call request for the identifier [create] returned is
    answered with the function's result. *)
Theorem created_function_is_served (fn : Function) (rid : uuid) (args : list value)
    (result : value) (this : DelegatorPool.t) (rt : Runtime) :
  fn args = Normal result ->
  exists (id : uuid) (this' : DelegatorPool.t) (rt' : Runtime),
    DelegatorPool.create fn this rt = (Normal (id, fn), this', rt')
    /\ DelegatorPool.handleDelegateRequest (DelegateRequest.mk id rid args) this' rt'
       = (Normal tt, this',
          set_microtasks
            (microtasks rt ++ [Ev_delegate_reply (DelegateReply.mk rid result)]) rt').
Proof.
  intros Hres. eexists. eexists. eexists. split; [reflexivity |].
  rewrite (handleDelegateRequest_registered _ fn result); simpl.
  - reflexivity.
  - apply own_get_set_eq.
  - exact Hres.
Qed.

Lemma created_function_is_served_witness :
  exists (id : uuid) (this' : DelegatorPool.t) (rt' : Runtime),
    DelegatorPool.create add42 one_function (idle 2) = (Normal (id, add42), this', rt')
    /\ DelegatorPool.handleDelegateRequest
         (DelegateRequest.mk id (sample_uuids 3) [VNumber 1]) this' rt'
       = (Normal tt, this',
          set_microtasks
            (microtasks (idle 2)
             ++ [Ev_delegate_reply (DelegateReply.mk (sample_uuids 3) (VNumber 43))]) rt').
Proof.
  apply (created_function_is_served add42 (sample_uuids 3) [VNumber 1] (VNumber 43)
           one_function (idle 2)).
  reflexivity.
Defined.

(** ** [DelegatorPool.register] and the handshake wired by [main] *)

Lemma settle_last (st : PromiseState) (h : list PromiseState) :
  Deferred.settle st (length h) (h ++ [Pending]) = h ++ [st].
Proof.
  assert (Hp : (h ++ [Pending]) !! length h = Some Pending).
  { rewrite lookup_app_r by reflexivity. rewrite Nat.sub_diag. reflexivity. }
  rewrite (settle_pending _ _ _ Hp).
  replace (length h) with (length h + 0) at 1 by lia.
  rewrite insert_app_r. reflexivity.
Qed.

(** X7. Announcing the same identifier twice replaces the waiter: both
    calls return a new pending promise, and the acknowledgment that follows
    resolves only the second; the promise returned by the first call is left
    pending. *)
Theorem repeated_register_orphans_first_promise (delegatorId : uuid)
    (this : DelegatorPool.t) (rt : Runtime) :
  exists (this' : DelegatorPool.t) (rt' : Runtime),
    (p1 <- DelegatorPool.register delegatorId ;;
     p2 <- DelegatorPool.register delegatorId ;;
     DelegatorPool.handleRegisterReply (RegisterReply.mk delegatorId) ;;
     ret (p1, p2)) this rt
    = (Normal (length (heap rt), S (length (heap rt))), this', rt')
    /\ heap rt' = heap rt ++ [Pending; Resolved VUndefined]
    /\ DelegatorPool.uponRegister this' !! delegatorId
       = Some (Deferred.mk (S (length (heap rt))))
    /\ microtasks rt'
       = microtasks rt
         ++ [Ev_register (RegisterRequest.mk (DelegatorPool.id this) delegatorId);
             Ev_register (RegisterRequest.mk (DelegatorPool.id this) delegatorId)].
Proof.
  eexists. eexists. unfold_method. simpl.
  rewrite lookup_insert_eq. simpl.
  rewrite length_app. simpl. rewrite Nat.add_1_r.
  split; [reflexivity |]. simpl. split; [| split].
  - replace (S (length (heap rt))) with (length (heap rt ++ [Pending]))
      by (rewrite length_app; simpl; lia).
    rewrite settle_last. rewrite <- app_assoc. reflexivity.
  - apply lookup_insert_eq.
  - rewrite <- app_assoc. reflexivity.
Qed.



(** ** A handler that throws *)

(** X9. When the registered function throws, [handleDelegateRequest] lets
    the exception through and queues no reply; delivered by the event loop
    the exception is uncaught in the microtask, and the process stops in the
    state before delivery with the request taken off the queue: the caller's
    promise is not settled. *)
Theorem handler_exception_is_uncaught (req : DelegateRequest.t) (fn : Function) (e : exn)
    (w w' : World) :
  dequeue w = Some (Ev_delegate req, w') ->
  own_get (DelegatorPool.pool (delegators w)) (DelegateRequest.id req) = Some fn ->
  fn (DelegateRequest.args req) = Throw e ->
  DelegatorPool.handleDelegateRequest req (delegators w) (runtime w')
  = (Throw e, delegators w, runtime w')
  /\ run_microtask w = Crashed e w'
  /\ heap (runtime w') = heap (runtime w)
  /\ microtasks (runtime w) = Ev_delegate req :: microtasks (runtime w')
  /\ delegates w' = delegates w.
Proof.
  intros Hdq Hfn Hthrow.
  pose proof (dequeue_Some _ _ _ Hdq) as (Hq & Hheap & _ & _ & Hd & Hr).
  split; [apply (handleDelegateRequest_handler_throws _ fn); assumption |].
  split; [| auto].
  unfold run_microtask. rewrite Hdq. simpl. unfold on_delegators.
  rewrite debug_then, Hr.
  rewrite (handleDelegateRequest_handler_throws _ fn e); [| exact Hfn | exact Hthrow].
  rewrite <- Hr. destruct w'; reflexivity.
Qed.

Lemma handler_exception_is_uncaught_witness :
  run_microtask failing_call_in_flight
  = Crashed (Error "handler failed") (reordered [] failing_call_in_flight)
  /\ heap (runtime (reordered [] failing_call_in_flight)) = [Pending].
Proof.
  destruct (handler_exception_is_uncaught
              (DelegateRequest.mk (sample_uuids 1) (sample_uuids 2) [VNumber 1]) failing
              (Error "handler failed") failing_call_in_flight
              (reordered [] failing_call_in_flight))
    as (_ & Hcrash & Hheap & _).
  - reflexivity.
  - reflexivity.
  - reflexivity.
  - split; [exact Hcrash | exact Hheap].
Defined.

(** ** [dispose] through the event loop *)

Lemma run_unregisters (reqs : list UnregisterRequest.t) (w : World) :
  microtasks (runtime w) = map Ev_unregister reqs ->
  exists s' : gset uuid,
    run_microtasks (length reqs) w
    = Running (mkWorld (set_microtasks [] (runtime w))
                 (DelegatePool.set_delegates s' (delegates w)) (delegators w))
    /\ forall k : uuid,
         k ∈ s' <->
         k ∈ DelegatePool.delegates (delegates w)
         /\ k ∉ map UnregisterRequest.delegatorId reqs.
Proof.
  revert w. induction reqs as [| req reqs IH]; intros w Hq.
  - exists (DelegatePool.delegates (delegates w)). simpl. split.
    + destruct w as [[src c q h] [s p] rx]. simpl in *. subst q. reflexivity.
    + intros k. rewrite elem_of_nil. tauto.
  - simpl run_microtasks. unfold run_microtask, dequeue. rewrite Hq. simpl.
    unfold on_delegates. unfold_method. simpl.
    match goal with
    | |- context [run_microtasks _ ?w1] => destruct (IH w1) as (s' & Hrun & Hs')
    end; [reflexivity |].
    exists s'. rewrite Hrun. simpl. split; [reflexivity |].
    intros k. rewrite Hs'. simpl.
    rewrite elem_of_difference, elem_of_singleton, not_elem_of_cons. tauto.
Qed.

(** X10. [dispose] from a turn with nothing queued, followed by one
    microtask per registered function: the process is still running, every
    key of the function map has left the caller's [delegates] set and no
    other identifier has, a call against any of those keys now throws the
    unregistered-delegate error, and the pending map and the promise cells
    are as they were. *)
Theorem dispose_blocks_every_proxy (w : World) :
  microtasks (runtime w) = [] ->
  exists w' : World,
    run_microtasks (length (DelegatorPool.pool (delegators w)))
      (snd (on_delegators DelegatorPool.dispose w))
    = Running w'
    /\ (forall k : uuid,
          k ∈ DelegatePool.delegates (delegates w') <->
          k ∈ DelegatePool.delegates (delegates w)
          /\ k ∉ Object_keys (DelegatorPool.pool (delegators w)))
    /\ (forall (k : uuid) (args : list value),
          k ∈ Object_keys (DelegatorPool.pool (delegators w)) ->
          on_delegates (DelegatePool.delegate k args) w'
          = (Throw (Error ("Unregistered delegate " +:+ k +:+ " was called")), w'))
    /\ DelegatePool.pool (delegates w') = DelegatePool.pool (delegates w)
    /\ heap (runtime w') = heap (runtime w)
    /\ microtasks (runtime w') = []
    /\ delegators w' = delegators w.
Proof.
  intros Hidle. unfold on_delegators. rewrite dispose_runs. simpl.
  set (reqs := map (fun k => UnregisterRequest.mk (DelegatorPool.id (delegators w)) k)
                 (Object_keys (DelegatorPool.pool (delegators w)))).
  assert (Hkeys : map UnregisterRequest.delegatorId reqs
                  = Object_keys (DelegatorPool.pool (delegators w))).
  { unfold reqs. rewrite map_map. simpl. apply map_id. }
  assert (Hlen : length (DelegatorPool.pool (delegators w)) = length reqs).
  { unfold reqs, Object_keys. rewrite !length_map. reflexivity. }
  rewrite Hlen.
  match goal with
  | |- context [run_microtasks _ ?w1] => destruct (run_unregisters reqs w1) as (s' & Hrun & Hs')
  end.
  { simpl. rewrite Hidle. unfold unregister_notices, reqs. rewrite map_map. reflexivity. }
  eexists. split; [exact Hrun |]. simpl. rewrite <- Hkeys.
  split; [exact Hs' |]. split; [| auto].
  intros k args Hk. unfold on_delegates. simpl.
  rewrite delegate_not_callable; [reflexivity |].
  simpl. rewrite Hs'. tauto.
Qed.

Lemma dispose_blocks_every_proxy_witness :
  exists w' : World,
    run_microtasks 1 (snd (on_delegators DelegatorPool.dispose wired)) = Running w'
    /\ on_delegates (DelegatePool.delegate (sample_uuids 1) [VNumber 1]) w'
       = (Throw (Error "Unregistered delegate 9b5e0c6a-21f4-4d8e-8a37-c04e5f1d2a66 was called"),
          w').
Proof.
  destruct (dispose_blocks_every_proxy wired) as (w' & Hrun & _ & Hcall & _).
  - reflexivity.
  - exists w'. split; [exact Hrun |].
    apply (Hcall (sample_uuids 1) [VNumber 1]).
    apply list_elem_of_here.
Defined.

(** ** What no step of the process undoes *)

Lemma settle_keeps_settled (st' st : PromiseState) (q p : Promise) (h : list PromiseState) :
  h !! p = Some st -> st <> Pending -> Deferred.settle st' q h !! p = Some st.
Proof.
  intros Hp Hst. destruct (decide (q = p)) as [-> | Hne].
  - rewrite (settle_settled _ _ _ _ Hp Hst). exact Hp.
  - rewrite settle_other by exact Hne. exact Hp.
Qed.

Lemma app_keeps_cell (h new : list PromiseState) (p : Promise) (st : PromiseState) :
  h !! p = Some st -> (h ++ new) !! p = Some st.
Proof.
  intros Hp. rewrite lookup_app_l by exact (lookup_lt_Some _ _ _ Hp). exact Hp.
Qed.

(** X11. A settled promise stays settled: whatever user code or the event
    loop does next (a call, a [create], a [register], [dispose], or the
    delivery of any queued event), a cell that is resolved or rejected keeps
    its state and its value. *)
Theorem settled_promise_is_stable (a : Action) (w w' : World) (p : Promise)
    (st : PromiseState) :
  perform a w = Running w' ->
  heap (runtime w) !! p = Some st ->
  st <> Pending ->
  heap (runtime w') !! p = Some st.
Proof.
  intros Hstep Hp Hst. destruct a as [id args | id | fn | delegatorId | |]; simpl in Hstep.
  - injection Hstep as <-. unfold on_delegates.
    destruct (decide (id ∈ DelegatePool.delegates (delegates w))) as [Hin | Hnot].
    + rewrite (delegate_registered _ _ _ _ Hin). simpl. apply app_keeps_cell. exact Hp.
    + rewrite (delegate_not_callable _ _ _ _ Hnot). simpl. exact Hp.
  - injection Hstep as <-. exact Hp.
  - injection Hstep as <-. exact Hp.
  - injection Hstep as <-. simpl. apply app_keeps_cell. exact Hp.
  - injection Hstep as <-. unfold on_delegators. rewrite dispose_runs. exact Hp.
  - unfold run_microtask in Hstep.
    destruct (dequeue w) as [[e w0] |] eqn:Hdq; [| injection Hstep as <-; exact Hp].
    pose proof (dequeue_Some _ _ _ Hdq) as (_ & Hheap & _). rewrite <- Hheap in Hp.
    destruct e as [req | reply | req | reply | req]; simpl in Hstep.
    + unfold on_delegates in Hstep. unfold_method. simpl in Hstep.
      injection Hstep as <-. exact Hp.
    + unfold on_delegators in Hstep. unfold_method.
      destruct (DelegatorPool.uponRegister (delegators w0) !! RegisterReply.delegatorId reply);
        simpl in Hstep; [| discriminate].
      injection Hstep as <-. simpl. apply settle_keeps_settled; assumption.
    + unfold on_delegators in Hstep. rewrite debug_then in Hstep.
      destruct (handleDelegateRequest_cases req (delegators w0) (runtime w0))
        as [[err Hcase] | [result Hcase]]; rewrite Hcase in Hstep; simpl in Hstep;
        [discriminate |].
      injection Hstep as <-. exact Hp.
    + unfold on_delegates in Hstep. unfold_method.
      destruct (DelegatePool.pool (delegates w0) !! DelegateReply.rid reply);
        simpl in Hstep; [| discriminate].
      injection Hstep as <-. simpl. apply settle_keeps_settled; assumption.
    + unfold on_delegates in Hstep. unfold_method. simpl in Hstep.
      injection Hstep as <-. exact Hp.
Qed.

Lemma settled_promise_is_stable_witness :
  heap (runtime (state_of (perform (Call (sample_uuids 1) [VNumber 5]) answered))) !! 0
  = Some (Resolved (VNumber 42)).
Proof.
  apply (settled_promise_is_stable (Call (sample_uuids 1) [VNumber 5]) answered
           (state_of (perform (Call (sample_uuids 1) [VNumber 5]) answered)) 0
           (Resolved (VNumber 42))).
  - reflexivity.
  - reflexivity.
  - discriminate.
Defined.

Lemma insert_keeps_key {A} (m : gmap uuid A) (k k' : uuid) (a : A) :
  is_Some (m !! k') -> is_Some (<[k := a]> m !! k').
Proof.
  intros Hsome. destruct (decide (k = k')) as [-> | Hne].
  - rewrite lookup_insert_eq. eauto.
  - rewrite lookup_insert_ne by exact Hne. exact Hsome.
Qed.

Lemma own_set_keeps_key {A} (o : list (uuid * A)) (k k' : uuid) (a : A) :
  is_Some (own_get o k') -> is_Some (own_get (own_set o k a) k').
Proof.
  intros Hsome. destruct (decide (k = k')) as [-> | Hne].
  - rewrite own_get_set_eq. eauto.
  - rewrite own_get_set_ne by exact Hne. exact Hsome.
Qed.

(** X12. Nothing is ever taken out: after any action that leaves the
    process running, every reply identifier of the pending map, every
    function identifier of the registry and every waiter is still present,
    and no promise cell has gone. Answered calls, disposed functions and
    acknowledged registrations all stay in their tables. *)
Theorem tables_only_grow (a : Action) (w w' : World) :
  perform a w = Running w' ->
  (forall rid : uuid,
     is_Some (DelegatePool.pool (delegates w) !! rid) ->
     is_Some (DelegatePool.pool (delegates w') !! rid))
  /\ (forall k : uuid,
        is_Some (own_get (DelegatorPool.pool (delegators w)) k) ->
        is_Some (own_get (DelegatorPool.pool (delegators w')) k))
  /\ (forall k : uuid,
        is_Some (DelegatorPool.uponRegister (delegators w) !! k) ->
        is_Some (DelegatorPool.uponRegister (delegators w') !! k))
  /\ length (heap (runtime w)) <= length (heap (runtime w')).
Proof.
  intros Hstep. destruct a as [id args | id | fn | delegatorId | |]; simpl in Hstep.
  - injection Hstep as <-. unfold on_delegates.
    destruct (decide (id ∈ DelegatePool.delegates (delegates w))) as [Hin | Hnot].
    + rewrite (delegate_registered _ _ _ _ Hin). simpl.
      split; [intros rid; apply insert_keeps_key |]. split; [auto |]. split; [auto |].
      rewrite length_app. lia.
    + rewrite (delegate_not_callable _ _ _ _ Hnot). simpl. auto.
  - injection Hstep as <-. simpl. auto.
  - injection Hstep as <-. simpl.
    split; [auto |]. split; [intros k; apply own_set_keeps_key | auto].
  - injection Hstep as <-. simpl.
    split; [auto |]. split; [auto |]. split; [intros k; apply insert_keeps_key |].
    rewrite length_app. lia.
  - injection Hstep as <-. unfold on_delegators. rewrite dispose_runs. simpl. auto.
  - unfold run_microtask in Hstep.
    destruct (dequeue w) as [[e w0] |] eqn:Hdq; [| injection Hstep as <-; auto].
    pose proof (dequeue_Some _ _ _ Hdq) as (_ & Hheap & _ & _ & Hd & Hr).
    rewrite <- Hheap, <- Hd, <- Hr.
    destruct e as [req | reply | req | reply | req]; simpl in Hstep.
    + unfold on_delegates in Hstep. unfold_method. simpl in Hstep.
      injection Hstep as <-. simpl. auto.
    + unfold on_delegators in Hstep. unfold_method.
      destruct (DelegatorPool.uponRegister (delegators w0) !! RegisterReply.delegatorId reply);
        simpl in Hstep; [| discriminate].
      injection Hstep as <-. simpl. rewrite settle_length. auto.
    + unfold on_delegators in Hstep. rewrite debug_then in Hstep.
      destruct (handleDelegateRequest_cases req (delegators w0) (runtime w0))
        as [[err Hcase] | [result Hcase]]; rewrite Hcase in Hstep; simpl in Hstep;
        [discriminate |].
      injection Hstep as <-. simpl. auto.
    + unfold on_delegates in Hstep. unfold_method.
      destruct (DelegatePool.pool (delegates w0) !! DelegateReply.rid reply);
        simpl in Hstep; [| discriminate].
      injection Hstep as <-. simpl. rewrite settle_length. auto.
    + unfold on_delegates in Hstep. unfold_method. simpl in Hstep.
      injection Hstep as <-. simpl. auto.
Qed.

Lemma tables_only_grow_witness :
  is_Some (DelegatePool.pool (delegates answered) !! sample_uuids 2)
  /\ is_Some (own_get (DelegatorPool.pool
                         (delegators (state_of (perform Dispose wired)))) (sample_uuids 1)).
Proof.
  split.
  - apply (proj1 (tables_only_grow Tick reply_in_flight answered eq_refl)).
    exists (Deferred.mk 0). reflexivity.
  - apply (proj1 (proj2 (tables_only_grow Dispose wired
                           (state_of (perform Dispose wired)) eq_refl))).
    exists add42. reflexivity.
Defined.

(** ** The synchronous pools *)

Lemma sync_delegate_answered (id : uuid) (args : list value)
    (delegate : SyncVariant.Delegator.t) (result : value)
    (this : SyncVariant.Pools) (rt : Runtime) :
  SyncVariant.DelegatorPool.pool (SyncVariant.delegators this) !! id = Some delegate ->
  SyncVariant.Delegator.apply delegate args = Normal result ->
  SyncVariant.delegate id args this rt
  = (Normal (length (heap rt)),
     SyncVariant.mkPools
       (SyncVariant.DelegatePool.mk
          (<[entropy rt (cursor rt) := Deferred.mk (length (heap rt))]>
             (SyncVariant.DelegatePool.pool (SyncVariant.delegates this))))
       (SyncVariant.delegators this),
     mkRuntime (entropy rt) (S (cursor rt)) (microtasks rt) (heap rt ++ [Resolved result])).
Proof.
  intros Hd Hres.
  unfold SyncVariant.delegate, SyncVariant.emitter_emit_delegate, SyncVariant.handle,
    SyncVariant.emitter_emit_ack, SyncVariant.ack.
  unfold_method. simpl. rewrite Hd. simpl. rewrite Hres. simpl.
  rewrite lookup_insert_eq. simpl. rewrite lookup_insert_eq. simpl.
  rewrite settle_last. reflexivity.
Qed.

(** X13. In the synchronous version a call to a stored delegator is
    answered inside the call: when [delegate] returns, the promise it
    returns is already resolved with the delegator's result, the entry is in
    the pending map under the uuid just drawn, and nothing was queued. *)
Theorem sync_call_is_resolved_on_return (id : uuid) (args : list value)
    (delegate : SyncVariant.Delegator.t) (result : value)
    (this : SyncVariant.Pools) (rt : Runtime) :
  SyncVariant.DelegatorPool.pool (SyncVariant.delegators this) !! id = Some delegate ->
  SyncVariant.Delegator.apply delegate args = Normal result ->
  exists (p : Promise) (this' : SyncVariant.Pools) (rt' : Runtime),
    SyncVariant.delegate id args this rt = (Normal p, this', rt')
    /\ heap rt !! p = None
    /\ heap rt' !! p = Some (Resolved result)
    /\ (forall (q : Promise) (st : PromiseState),
          heap rt !! q = Some st -> heap rt' !! q = Some st)
    /\ SyncVariant.DelegatePool.pool (SyncVariant.delegates this') !! entropy rt (cursor rt)
       = Some (Deferred.mk p)
    /\ SyncVariant.delegators this' = SyncVariant.delegators this
    /\ microtasks rt' = microtasks rt.
Proof.
  intros Hd Hres. eexists. eexists. eexists.
  split; [exact (sync_delegate_answered id args delegate result this rt Hd Hres) |]. simpl.
  split; [apply lookup_ge_None; reflexivity |].
  split.
  { rewrite lookup_app_r by reflexivity. rewrite Nat.sub_diag. reflexivity. }
  split; [intros q st; apply app_keeps_cell |].
  split; [apply lookup_insert_eq | auto].
Qed.

Lemma sync_call_is_resolved_on_return_witness :
  exists (p : Promise) (this' : SyncVariant.Pools) (rt' : Runtime),
    SyncVariant.delegate (sample_uuids 0) [] sync_one_delegator (idle 1) = (Normal p, this', rt')
    /\ heap rt' !! p = Some (Resolved (VNumber 100)).
Proof.
  destruct (sync_call_is_resolved_on_return (sample_uuids 0) []
              (SyncVariant.Delegator.mk (sample_uuids 0) always100) (VNumber 100)
              sync_one_delegator (idle 1))
    as (p & this' & rt' & Hrun & _ & Hcell & _).
  - reflexivity.
  - reflexivity.
  - exists p, this', rt'. split; [exact Hrun | exact Hcell].
Defined.

(** X14. In the synchronous version a call that cannot be answered throws
    out of [delegate] itself: a TypeError when no delegator is stored under
    the identifier and the identifier names no member inherited from
    [Object.prototype], the delegator's own exception when it throws. Either
    way the uuid has been drawn and the Deferred stored before the emit
    stays in the pending map with its promise pending. *)
Theorem sync_failed_call_leaves_pending_entry (id : uuid) (args : list value)
    (this : SyncVariant.Pools) (rt : Runtime) :
  let this' :=
    SyncVariant.mkPools
      (SyncVariant.DelegatePool.mk
         (<[entropy rt (cursor rt) := Deferred.mk (length (heap rt))]>
            (SyncVariant.DelegatePool.pool (SyncVariant.delegates this))))
      (SyncVariant.delegators this) in
  let rt' := mkRuntime (entropy rt) (S (cursor rt)) (microtasks rt) (heap rt ++ [Pending]) in
  (SyncVariant.DelegatorPool.pool (SyncVariant.delegators this) !! id = None ->
   id ∉ Object_prototype_names ->
   SyncVariant.delegate id args this rt = (Throw TypeError, this', rt'))
  /\ (forall (delegate : SyncVariant.Delegator.t) (e : exn),
        SyncVariant.DelegatorPool.pool (SyncVariant.delegators this) !! id = Some delegate ->
        SyncVariant.Delegator.apply delegate args = Throw e ->
        SyncVariant.delegate id args this rt = (Throw e, this', rt')).
Proof.
  split.
  - intros Hnone Hname.
    unfold SyncVariant.delegate, SyncVariant.emitter_emit_delegate, SyncVariant.handle.
    unfold_method. simpl. rewrite Hnone. unfold Object_prototype_apply_array.
    rewrite bool_decide_eq_false_2 by exact Hname. reflexivity.
  - intros delegate e Hd Hthrow.
    unfold SyncVariant.delegate, SyncVariant.emitter_emit_delegate, SyncVariant.handle.
    unfold_method. simpl. rewrite Hd. simpl. rewrite Hthrow. reflexivity.
Qed.

Lemma sync_failed_call_leaves_pending_entry_witness :
  fst (fst (SyncVariant.delegate (sample_uuids 3) [] sync_one_delegator (idle 1)))
  = Throw TypeError
  /\ fst (fst (SyncVariant.delegate (sample_uuids 0) [] sync_failing_delegator (idle 1)))
     = Throw (Error "handler failed").
Proof.
  split.
  - rewrite (proj1 (sync_failed_call_leaves_pending_entry (sample_uuids 3) []
                      sync_one_delegator (idle 1))).
    + reflexivity.
    + reflexivity.
    + apply (bool_decide_unpack _). vm_compute. exact I.
  - rewrite (proj2 (sync_failed_call_leaves_pending_entry (sample_uuids 0) []
                      sync_failing_delegator (idle 1))
               (SyncVariant.Delegator.mk (sample_uuids 0) failing)
               (Error "handler failed")); reflexivity.
Defined.

(** In the synchronous version a call under an inherited name is answered
    by the inherited member, called on the argument array. *)
Example sync_inherited_member_is_applied :
  SyncVariant.delegate "toString" [VNumber 1; VNumber 2] sync_one_delegator (idle 1)
  = (Normal 0,
     SyncVariant.mkPools
       (SyncVariant.DelegatePool.mk {[sample_uuids 1 := Deferred.mk 0]})
       (SyncVariant.delegators sync_one_delegator),
     mkRuntime sample_uuids 2 [] [Resolved (VString "[object Array]")])
  /\ heap (snd (SyncVariant.delegate "toLocaleString" [VNumber 1; VNumber 2]
                  sync_one_delegator (idle 1)))
     = [Resolved (VString "1,2")]
  /\ fst (fst (SyncVariant.delegate "__proto__" [] sync_one_delegator (idle 1)))
     = Throw TypeError.
Proof. split; [reflexivity |]. split; reflexivity. Qed.

(** X15. The script of the synchronous version: a function handed to
    [delegators.create], a proxy made for the identifier it got, and a call
    through the proxy's [apply]. The call returns a promise that is already
    resolved with the function's result. *)
Theorem sync_create_then_call (fn : Function) (args : list value) (result : value)
    (this : SyncVariant.Pools) (rt : Runtime) :
  fn args = Normal result ->
  exists (rx : SyncVariant.Delegator.t) (tx : list value -> M SyncVariant.Pools Promise)
         (this1 this2 : SyncVariant.Pools) (rt1 rt2 : Runtime) (p : Promise),
    SyncVariant.DelegatorPool_create fn this rt = (Normal rx, this1, rt1)
    /\ SyncVariant.Delegator.apply rx = fn
    /\ SyncVariant.Delegator.id rx = entropy rt (cursor rt)
    /\ SyncVariant.DelegatePool_create (SyncVariant.Delegator.id rx) this1 rt1
       = (Normal (SyncVariant.Delegator.id rx, tx), this1, rt1)
    /\ tx args this1 rt1 = (Normal p, this2, rt2)
    /\ heap rt2 !! p = Some (Resolved result)
    /\ heap rt2 = heap rt ++ [Resolved result].
Proof.
  intros Hres. eexists. eexists. eexists. eexists. eexists. eexists. eexists.
  split; [reflexivity |]. split; [reflexivity |]. split; [reflexivity |].
  split; [reflexivity |]. simpl.
  split.
  - apply (sync_delegate_answered _ _ (SyncVariant.Delegator.mk (entropy rt (cursor rt)) fn)).
    + simpl. apply lookup_insert_eq.
    + exact Hres.
  - simpl. split; [| reflexivity].
    rewrite lookup_app_r by reflexivity. rewrite Nat.sub_diag. reflexivity.
Qed.

Lemma sync_create_then_call_witness :
  exists (rx : SyncVariant.Delegator.t) (tx : list value -> M SyncVariant.Pools Promise)
         (this1 this2 : SyncVariant.Pools) (rt1 rt2 : Runtime) (p : Promise),
    SyncVariant.DelegatorPool_create always100 sync_one_delegator (idle 1)
    = (Normal rx, this1, rt1)
    /\ SyncVariant.DelegatePool_create (SyncVariant.Delegator.id rx) this1 rt1
       = (Normal (SyncVariant.Delegator.id rx, tx), this1, rt1)
    /\ tx [] this1 rt1 = (Normal p, this2, rt2)
    /\ heap rt2 = [Resolved (VNumber 100)].
Proof.
  destruct (sync_create_then_call always100 [] (VNumber 100) sync_one_delegator (idle 1))
    as (rx & tx & this1 & this2 & rt1 & rt2 & p & H1 & _ & _ & H2 & H3 & _ & H4).
  - reflexivity.
  - exists rx, tx, this1, this2, rt1, rt2, p. auto.
Defined.

(** ** Duplicate replies *)

(** X16. The first reply for a reply identifier wins: handling a second
    '@delegate' event with the same [rid], whatever results it carries, right
    after the first leaves the pool, the promise cells and the outcome
    exactly as the first one alone does. (For an unknown [rid] the first
    call already throws.) *)
Theorem first_reply_wins (rid : uuid) (v v' : value)
    (this : DelegatePool.t) (rt : Runtime) :
  (DelegatePool.handleDelegateReply (DelegateReply.mk rid v) ;;
   DelegatePool.handleDelegateReply (DelegateReply.mk rid v')) this rt
  = DelegatePool.handleDelegateReply (DelegateReply.mk rid v) this rt.
Proof.
  destruct (DelegatePool.pool this !! rid) as [d |] eqn:Hd.
  - unfold bind at 1.
    rewrite (handleDelegateReply_found (DelegateReply.mk rid v) d this rt Hd).
    rewrite (handleDelegateReply_found (DelegateReply.mk rid v') d this _ Hd).
    simpl. rewrite settle_twice by discriminate. reflexivity.
  - unfold bind at 1.
    rewrite (handleDelegateReply_missing (DelegateReply.mk rid v) this rt Hd). reflexivity.
Qed.
